(** * Shutdown orchestrator: [cleanup] and [kill_all_threads] of src/cleanup.py

    The Python coroutine [cleanup()] works on two module globals
    ([running_subprocesses], [thread_executor]) and on objects owned by the
    interpreter and the operating system: asyncio subprocess handles, asyncio
    tasks, psutil process handles and threads.  The embedding is a small
    state-and-exception monad that also records every call made on one of
    those objects, in program order.  What such a call answers (returns,
    raises, never completes) is part of the state, so that every theorem
    quantifies over all behaviours of the environment.

    Scope of the model: [cleanup()] is the only party that mutates the two
    globals while it runs; [console.print], [asyncio.sleep], [task.cancel]
    and the enumeration calls do not raise.  The registry, a Python set, is
    the list of its members in the order [pop()] yields them; an object is
    named by its identity, a natural number.  The tasks of
    [asyncio.all_tasks()] are observed where [cleanup()] joins them: what a
    task does once it has been asked to cancel shows at the [gather]. *)

From Stdlib Require Import String List ZArith QArith Bool Arith Lia DecimalString.
From Stdlib Require Import Permutation.
Import ListNotations.

Close Scope Q_scope.
Set Implicit Arguments.

(** ** Python values the code inspects *)

(** An exception instance, with its [str()], the three [isinstance] tests
    the source performs on it, and the one test asyncio performs on what a
    task raises: an instance of [KeyboardInterrupt] or [SystemExit] is not
    kept for the join but raised again, out of the event loop.  Python 3.8
    and later derive [asyncio.CancelledError] from [BaseException] only;
    earlier versions derive it from [Exception].  Both are instances of
    this record. *)
Record pyexc := {
  exc_str : string;
  isinstance_Exception : bool;
  isinstance_CancelledError : bool;
  isinstance_TimeoutError : bool;
  isinstance_KeyboardInterrupt_SystemExit : bool
}.

(** An element of the list [asyncio.gather(..., return_exceptions=True)]
    hands back: an exception instance or any other object. *)
Inductive pyobject :=
| Obj (repr : string)
| Exc (e : pyexc).

Definition str (o : pyobject) : string :=
  match o with
  | Obj r => r
  | Exc e => exc_str e
  end.

(** How a task ends once cancellation has been requested. A cancellation
    acknowledgement is [Failed e] with [isinstance_CancelledError e]. *)
Inductive task_outcome :=
| Finished (v : pyobject)
| Failed (e : pyexc).

(** ** Outcome of a call *)

Inductive result (A : Type) :=
| Returned (a : A)
| Raised (e : pyexc)
| Blocked.                      (* the call never completes *)

Arguments Raised {A} e.
Arguments Blocked {A}.

(** ** Tracked subprocesses *)

Definition proc_id := nat.      (* object identity of a subprocess handle *)
Definition task_id := nat.      (* object identity of an asyncio task *)

Inductive std_stream := Stdout | Stderr | Stdin.

Inductive signal := SIGTERM | SIGKILL.

(** A stream object: [close_raises = None] means [close()] succeeds and the
    stream becomes closed; [Some e] means [close()] raises [e] and leaves
    the stream as it was. *)
Record stream := {
  closed : bool;
  close_raises : option pyexc
}.

Inductive wait_outcome :=
| WaitReturns (code : Z)        (* the process exited within the timeout *)
| WaitRaises (e : pyexc).       (* asyncio.TimeoutError, or anything else *)

Record process := {
  pid : Z;
  returncode : option Z;
  signals : list signal;        (* signals sent through this handle so far *)
  stdout : option stream;
  stderr : option stream;
  stdin : option stream;
  terminate_raises : option pyexc;
  wait_for : Q -> wait_outcome; (* await asyncio.wait_for(proc.wait(), timeout) *)
  kill_raises : option pyexc
}.

Definition get_stream (p : process) (f : std_stream) : option stream :=
  match f with
  | Stdout => stdout p
  | Stderr => stderr p
  | Stdin => stdin p
  end.

Definition set_stream (p : process) (f : std_stream) (v : option stream) : process :=
  {| pid := pid p; returncode := returncode p; signals := signals p;
     stdout := match f with Stdout => v | _ => stdout p end;
     stderr := match f with Stderr => v | _ => stderr p end;
     stdin := match f with Stdin => v | _ => stdin p end;
     terminate_raises := terminate_raises p; wait_for := wait_for p;
     kill_raises := kill_raises p |}.

Definition set_returncode (p : process) (c : option Z) : process :=
  {| pid := pid p; returncode := c; signals := signals p;
     stdout := stdout p; stderr := stderr p; stdin := stdin p;
     terminate_raises := terminate_raises p; wait_for := wait_for p;
     kill_raises := kill_raises p |}.

Definition deliver (p : process) (sg : signal) : process :=
  {| pid := pid p; returncode := returncode p; signals := signals p ++ [sg];
     stdout := stdout p; stderr := stderr p; stdin := stdin p;
     terminate_raises := terminate_raises p; wait_for := wait_for p;
     kill_raises := kill_raises p |}.

(** ** Worker pool, OS processes, threads *)

Record executor := {
  shutdown : bool -> result unit   (* ThreadPoolExecutor.shutdown(wait=...) *)
}.

(** A psutil handle.  Two handles of one process are equal; a process is
    named by its pid here.  [ps_slot] is the place of the handle in the
    iteration order of a set that holds it. *)
Record ps_process := {
  ps_pid : Z;
  ps_slot : Z;                     (* fixed by hash(child) and the table *)
  ps_terminate_raises : option pyexc;
  ps_alive_after : Q -> bool;      (* still alive when the wait window closes *)
  ps_kill_raises : option pyexc
}.

Record thread := {
  name : string;
  is_alive : bool
}.

(** ** Program state *)

Record state := {
  thread_executor : option executor;
  running_subprocesses : list proc_id;   (* the set, in the order pop() yields *)
  procs : proc_id -> process;            (* the subprocess objects *)
  all_tasks : list task_id;              (* asyncio.all_tasks() *)
  current_task : task_id;                (* asyncio.current_task() *)
  task_settles : task_id -> option task_outcome;  (* None: never finishes *)
  ps_children : bool -> list ps_process; (* psutil.Process().children(recursive) *)
  threads : list thread                  (* threading.enumerate() *)
}.

Definition set_thread_executor (v : option executor) (s : state) : state :=
  {| thread_executor := v; running_subprocesses := running_subprocesses s;
     procs := procs s; all_tasks := all_tasks s; current_task := current_task s;
     task_settles := task_settles s; ps_children := ps_children s;
     threads := threads s |}.

Definition set_running_subprocesses (v : list proc_id) (s : state) : state :=
  {| thread_executor := thread_executor s; running_subprocesses := v;
     procs := procs s; all_tasks := all_tasks s; current_task := current_task s;
     task_settles := task_settles s; ps_children := ps_children s;
     threads := threads s |}.

Definition set_proc (h : proc_id) (p : process) (s : state) : state :=
  {| thread_executor := thread_executor s;
     running_subprocesses := running_subprocesses s;
     procs := fun h' => if Nat.eqb h' h then p else procs s h';
     all_tasks := all_tasks s; current_task := current_task s;
     task_settles := task_settles s; ps_children := ps_children s;
     threads := threads s |}.

(** ** What the program does to its environment *)

(** The text handed to [console.print], one constructor per call site. *)
Inductive message :=
| CleaningUp
| ShuttingDownPool
| TerminatingSubprocess (pid : Z)
| ForceKillingSubprocess (pid : Z)
| CancellingTasks (n : nat)
| ErrorDuringCleanup (result : string)
| CleanupCompleted
| CheckingThreads
| TerminatingProcess (pid : Z)
| ForceKillingProcess (pid : Z)
| RemainingThreads (n : nat)
| ThreadLine (name : string) (alive : bool)
| ThreadCleanupCompleted.

Definition str_int (z : Z) : string := NilZero.string_of_int (Z.to_int z).
Definition str_len (n : nat) : string := NilZero.string_of_uint (Nat.to_uint n).
Definition str_bool (b : bool) : string := if b then "True"%string else "False"%string.

Definition render (m : message) : string :=
  (match m with
   | CleaningUp => "[yellow]Cleaning up tasks before exiting...[/yellow]"
   | ShuttingDownPool => "[yellow]Shutting down thread pool executor...[/yellow]"
   | TerminatingSubprocess p =>
       "[yellow]Terminating subprocess " ++ str_int p ++ "...[/yellow]"
   | ForceKillingSubprocess p =>
       "[red]Subprocess " ++ str_int p ++ " did not exit in time, force killing.[/red]"
   | CancellingTasks n =>
       "[yellow]Cancelling " ++ str_len n ++ " remaining tasks...[/yellow]"
   | ErrorDuringCleanup r => "[red]Error during cleanup: " ++ r ++ "[/red]"
   | CleanupCompleted => "[green]Cleanup completed. Exiting safely.[/green]"
   | CheckingThreads => "[yellow]Checking for remaining background threads...[/yellow]"
   | TerminatingProcess p => "[yellow]Terminating process " ++ str_int p ++ "...[/yellow]"
   | ForceKillingProcess p => "[red]Force killing stubborn process: " ++ str_int p ++ "[/red]"
   | RemainingThreads n =>
       "[bold yellow]Remaining active threads:[/bold yellow] " ++ str_len n
   | ThreadLine nm a => "  - " ++ nm ++ " (Alive: " ++ str_bool a ++ ")"
   | ThreadCleanupCompleted => "[green]Thread cleanup completed.[/green]"
   end)%string.

(** One call on an object of the environment. *)
Inductive event :=
| Print (m : message)                        (* console.print(render m) *)
| Shutdown (wait : bool)                     (* thread_executor.shutdown(wait=...) *)
| Terminate (h : proc_id)                    (* proc.terminate() *)
| WaitFor (h : proc_id) (timeout : Q)        (* await asyncio.wait_for(proc.wait(), timeout=...) *)
| Kill (h : proc_id)                         (* proc.kill() *)
| Close (h : proc_id) (f : std_stream)       (* stream.close() *)
| Sleep (delay : Q)                          (* await asyncio.sleep(...) *)
| Cancel (t : task_id)                       (* task.cancel() *)
| Gather (ts : list task_id) (return_exceptions : bool)  (* await asyncio.gather of ts *)
| Children (recursive : bool)                (* psutil.Process().children(recursive=...) *)
| PsTerminate (p : Z)                        (* child.terminate() *)
| WaitProcs (ps : list Z) (timeout : Q)      (* psutil.wait_procs(ps, timeout=...) *)
| PsKill (p : Z)                             (* child.kill() *)
| Enumerate.                                 (* threading.enumerate() *)

Definition trace := list event.

(** ** The monad: state, exceptions, and the trace of calls *)

Definition M (A : Type) : Type := state -> result A * state * trace.

Definition ret {A} (a : A) : M A := fun s => (Returned a, s, []).

Definition bind {A B} (m : M A) (k : A -> M B) : M B :=
  fun s =>
    match m s with
    | (Returned a, s1, t1) =>
        let '(r, s2, t2) := k a s1 in (r, s2, t1 ++ t2)
    | (Raised e, s1, t1) => (Raised e, s1, t1)
    | (Blocked, s1, t1) => (Blocked, s1, t1)
    end.

Declare Scope py_scope.
Delimit Scope py_scope with py.
Notation "x <- m ;; k" := (bind m (fun x => k))
  (at level 61, m at next level, right associativity) : py_scope.
Notation "m ;; k" := (bind m (fun _ => k))
  (at level 61, right associativity) : py_scope.
Open Scope py_scope.

Definition gets {A} (f : state -> A) : M A := fun s => (Returned (f s), s, []).
Definition modify (f : state -> state) : M unit := fun s => (Returned tt, f s, []).
Definition emit (e : event) : M unit := fun s => (Returned tt, s, [e]).
Definition answer {A} (r : result A) : M A := fun s => (r, s, []).
Definition raise {A} (e : pyexc) : M A := answer (Raised e).
Definition block {A} : M A := answer Blocked.

(** [try: body / except cls: handler], with [catches] the [isinstance] test
    of the except clause. *)
Definition try_except {A} (body : M A) (catches : pyexc -> bool)
    (handler : M A) : M A :=
  fun s =>
    match body s with
    | (Raised e, s1, t1) =>
        if catches e
        then let '(r, s2, t2) := handler s1 in (r, s2, t1 ++ t2)
        else (Raised e, s1, t1)
    | other => other
    end.

(** [for x in xs: body] *)
Fixpoint for_each {A} (xs : list A) (body : A -> M unit) : M unit :=
  match xs with
  | [] => ret tt
  | x :: rest => body x ;; for_each rest body
  end.

(** Running a computation: its outcome, final state and trace. *)
Definition outcome {A} (x : result A * state * trace) : result A := fst (fst x).
Definition final {A} (x : result A * state * trace) : state := snd (fst x).
Definition calls {A} (x : result A * state * trace) : trace := snd x.

(** ** Calls on the environment *)

(** [console.print(...)] *)
Definition console_print (m : message) : M unit := emit (Print m).

(** [thread_executor.shutdown(wait=w)] *)
Definition executor_shutdown (ex : executor) (w : bool) : M unit :=
  emit (Shutdown w) ;;
  answer (shutdown ex w).

(** [proc.terminate()] *)
Definition proc_terminate (h : proc_id) : M unit :=
  emit (Terminate h) ;;
  p <- gets (fun s => procs s h) ;;
  match terminate_raises p with
  | Some e => raise e
  | None => modify (set_proc h (deliver p SIGTERM))
  end.

(** [await asyncio.wait_for(proc.wait(), timeout=t)]: on return the handle
    carries the exit status. *)
Definition proc_wait_for (h : proc_id) (t : Q) : M Z :=
  emit (WaitFor h t) ;;
  p <- gets (fun s => procs s h) ;;
  match wait_for p t with
  | WaitReturns c => modify (set_proc h (set_returncode p (Some c))) ;; ret c
  | WaitRaises e => raise e
  end.

(** [proc.kill()] *)
Definition proc_kill (h : proc_id) : M unit :=
  emit (Kill h) ;;
  p <- gets (fun s => procs s h) ;;
  match kill_raises p with
  | Some e => raise e
  | None => modify (set_proc h (deliver p SIGKILL))
  end.

(** [stream.close()] on the stream in slot [f] of process [h] *)
Definition stream_close (h : proc_id) (f : std_stream) : M unit :=
  emit (Close h f) ;;
  p <- gets (fun s => procs s h) ;;
  match get_stream p f with
  | Some st =>
      match close_raises st with
      | Some e => raise e
      | None =>
          modify (set_proc h (set_stream p f
            (Some {| closed := true; close_raises := close_raises st |})))
      end
  | None => ret tt
  end.

(** [await asyncio.sleep(d)] *)
Definition asyncio_sleep (d : Q) : M unit := emit (Sleep d).

(** [task.cancel()] *)
Definition task_cancel (t : task_id) : M unit := emit (Cancel t).

(** What [gather] yields for one settled task. *)
Definition gathered (o : task_outcome) : pyobject :=
  match o with
  | Finished v => v
  | Failed e => Exc e
  end.

(** All outcomes, when every task settles. *)
Fixpoint settle_all (settles : task_id -> option task_outcome)
    (ts : list task_id) : option (list task_outcome) :=
  match ts with
  | [] => Some []
  | t :: rest =>
      match settles t, settle_all settles rest with
      | Some o, Some os => Some (o :: os)
      | _, _ => None
      end
  end.

Definition first_failure (os : list task_outcome) : option pyexc :=
  match filter (fun o => match o with Failed _ => true | _ => false end) os with
  | Failed e :: _ => Some e
  | _ => None
  end.

(** The first task that ended with a [KeyboardInterrupt] or a [SystemExit]:
    asyncio does not keep such an exception for the join but raises it
    again, out of the event loop. *)
Definition leaves_loop (os : list task_outcome) : option pyexc :=
  match filter (fun o => match o with
                         | Failed e => isinstance_KeyboardInterrupt_SystemExit e
                         | Finished _ => false
                         end) os with
  | Failed e :: _ => Some e
  | _ => None
  end.

(** [await asyncio.gather of ts with return_exceptions=re]: no timeout; it
    completes when every task has settled.  When one of them has ended with
    a [KeyboardInterrupt] or a [SystemExit], that exception has left the
    event loop and the caller is not resumed with the list. *)
Definition asyncio_gather (ts : list task_id) (re : bool) : M (list pyobject) :=
  emit (Gather ts re) ;;
  settles <- gets task_settles ;;
  match settle_all settles ts with
  | None => block
  | Some os =>
      match leaves_loop os with
      | Some e => raise e
      | None =>
          if re then ret (map gathered os)
          else match first_failure os with
               | Some e => raise e
               | None => ret (map gathered os)
               end
      end
  end.

(** [psutil.Process().children(recursive=r)] *)
Definition psutil_children (r : bool) : M (list ps_process) :=
  emit (Children r) ;;
  gets (fun s => ps_children s r).

(** [child.terminate()] and [child.kill()] on a psutil handle *)
Definition ps_terminate (c : ps_process) : M unit :=
  emit (PsTerminate (ps_pid c)) ;;
  match ps_terminate_raises c with
  | Some e => raise e
  | None => ret tt
  end.

Definition ps_kill (c : ps_process) : M unit :=
  emit (PsKill (ps_pid c)) ;;
  match ps_kill_raises c with
  | Some e => raise e
  | None => ret tt
  end.

(** [set(cs)]: the members of [cs], each process once. *)
Fixpoint distinct (cs : list ps_process) : list ps_process :=
  match cs with
  | [] => []
  | c :: rest =>
      c :: filter (fun d => negb (Z.eqb (ps_pid d) (ps_pid c))) (distinct rest)
  end.

Fixpoint insert_by_slot (c : ps_process) (l : list ps_process) : list ps_process :=
  match l with
  | [] => [c]
  | d :: rest =>
      if Z.leb (ps_slot c) (ps_slot d) then c :: l
      else d :: insert_by_slot c rest
  end.

(** [list(a_set)]: a set is iterated in the order of its table, which the
    hashes of the members fix and the order in which they were added does
    not.  Each handle carries its place in that order; as the places are
    arbitrary, so is the order. *)
Definition list_of_set (members : list ps_process) : list ps_process :=
  fold_right insert_by_slot [] members.

(** [psutil.wait_procs(cs, timeout=t)]: one wait over the whole list.  It
    collects the processes in two sets and hands back the pair
    [(list(gone), list(alive))]. *)
Definition psutil_wait_procs (cs : list ps_process) (t : Q)
    : M (list ps_process * list ps_process) :=
  emit (WaitProcs (map ps_pid cs) t) ;;
  ret (list_of_set (filter (fun c => negb (ps_alive_after c t)) (distinct cs)),
       list_of_set (filter (fun c => ps_alive_after c t) (distinct cs))).

(** [threading.enumerate()] *)
Definition threading_enumerate : M (list thread) :=
  emit Enumerate ;;
  gets threads.

(** ** The program *)

(** Lines 16-20: shut the worker pool down, then drop the handle. *)
Definition pool_shutdown : M unit :=
  ex <- gets thread_executor ;;
  match ex with
  | Some e =>
      console_print ShuttingDownPool ;;
      executor_shutdown e true ;;
      modify (set_thread_executor None)
  | None => ret tt
  end.

(** Lines 37-44: terminate, wait, escalate. *)
Definition stop_process (h : proc_id) : M unit :=
  p <- gets (fun s => procs s h) ;;
  match returncode p with
  | None =>
      console_print (TerminatingSubprocess (pid p)) ;;
      proc_terminate h ;;
      try_except (proc_wait_for h 3%Q ;; ret tt) isinstance_TimeoutError
        (console_print (ForceKillingSubprocess (pid p)) ;;
         proc_kill h)
  | Some _ => ret tt
  end.

(** Lines 47-52: close the streams that are present. *)
Definition close_streams (h : proc_id) : M unit :=
  p <- gets (fun s => procs s h) ;;
  for_each [Stdout; Stderr; Stdin] (fun f =>
    match get_stream p f with
    | Some _ => try_except (stream_close h f) isinstance_Exception (ret tt)
    | None => ret tt
    end).

(** Lines 35-52: the while loop.  [pending] is the registry at the loop
    test; each iteration pops its first member. *)
Fixpoint drain (pending : list proc_id) : M unit :=
  match pending with
  | [] => ret tt
  | h :: rest =>
      modify (set_running_subprocesses rest) ;;
      stop_process h ;;
      close_streams h ;;
      drain rest
  end.

Definition terminate_subprocesses : M unit :=
  pending <- gets running_subprocesses ;;
  drain pending.

(** Line 58: every live task but the caller's own. *)
Definition other_tasks (s : state) : list task_id :=
  filter (fun t => negb (Nat.eqb t (current_task s))) (all_tasks s).

(** Lines 58-68: cancel, grace sleep, join. *)
Definition cancel_tasks : M (list pyobject) :=
  tasks <- gets other_tasks ;;
  console_print (CancellingTasks (length tasks)) ;;
  for_each tasks task_cancel ;;
  asyncio_sleep 0.1%Q ;;
  asyncio_gather tasks true.

(** Line 71 *)
Definition reported (r : pyobject) : bool :=
  match r with
  | Exc e => isinstance_Exception e && negb (isinstance_CancelledError e)
  | Obj _ => false
  end.

(** Lines 70-72 *)
Definition triage (results : list pyobject) : M unit :=
  for_each results (fun r =>
    if reported r then console_print (ErrorDuringCleanup (str r)) else ret tt).

(** Lines 80-108 *)
Definition kill_all_threads : M unit :=
  console_print CheckingThreads ;;
  children <- psutil_children true ;;
  for_each children (fun child =>
    console_print (TerminatingProcess (ps_pid child)) ;;
    ps_terminate child) ;;
  gone_alive <- psutil_wait_procs children 3%Q ;;
  for_each (snd gone_alive) (fun child =>
    console_print (ForceKillingProcess (ps_pid child)) ;;
    ps_kill child) ;;
  ths <- threading_enumerate ;;
  for_each ths (fun t =>
    if negb (is_alive t) then ret tt   (* del thread: unbinds the loop variable *)
    else ret tt) ;;
  active_threads <- threading_enumerate ;;
  console_print (RemainingThreads (length active_threads)) ;;
  for_each active_threads (fun t => console_print (ThreadLine (name t) (is_alive t))) ;;
  console_print ThreadCleanupCompleted.

(** Lines 11-77 *)
Definition cleanup : M unit :=
  console_print CleaningUp ;;
  pool_shutdown ;;
  terminate_subprocesses ;;
  asyncio_sleep 0.1%Q ;;
  results <- cancel_tasks ;;
  triage results ;;
  kill_all_threads ;;
  console_print CleanupCompleted.

(** ** Sample environments *)

Module Samples.

Definition ProcessLookupError : pyexc :=
  {| exc_str := "ProcessLookupError"; isinstance_Exception := true;
     isinstance_CancelledError := false; isinstance_TimeoutError := false;
     isinstance_KeyboardInterrupt_SystemExit := false |}.
Definition TimeoutError : pyexc :=
  {| exc_str := ""; isinstance_Exception := true;
     isinstance_CancelledError := false; isinstance_TimeoutError := true;
     isinstance_KeyboardInterrupt_SystemExit := false |}.
Definition CancelledError : pyexc :=
  {| exc_str := ""; isinstance_Exception := false;
     isinstance_CancelledError := true; isinstance_TimeoutError := false;
     isinstance_KeyboardInterrupt_SystemExit := false |}.
Definition ValueError (msg : string) : pyexc :=
  {| exc_str := msg; isinstance_Exception := true;
     isinstance_CancelledError := false; isinstance_TimeoutError := false;
     isinstance_KeyboardInterrupt_SystemExit := false |}.
Definition AttributeError : pyexc :=
  {| exc_str := "'StreamReader' object has no attribute 'close'";
     isinstance_Exception := true;
     isinstance_CancelledError := false; isinstance_TimeoutError := false;
     isinstance_KeyboardInterrupt_SystemExit := false |}.
Definition GeneratorExit : pyexc :=
  {| exc_str := ""; isinstance_Exception := false;
     isinstance_CancelledError := false; isinstance_TimeoutError := false;
     isinstance_KeyboardInterrupt_SystemExit := false |}.

Definition pipe : stream := {| closed := false; close_raises := None |}.
Definition reader : stream := {| closed := false; close_raises := Some AttributeError |}.

(** exits [d] time units after SIGTERM *)
Definition exits_after (d : Q) (t : Q) : wait_outcome :=
  if Qle_bool d t then WaitReturns 0%Z else WaitRaises TimeoutError.
Definition never_exits (t : Q) : wait_outcome := WaitRaises TimeoutError.

Definition polite (n : Z) : process :=
  {| pid := n; returncode := None; signals := [];
     stdout := Some pipe; stderr := Some pipe; stdin := Some pipe;
     terminate_raises := None; wait_for := exits_after 1%Q; kill_raises := None |}.
Definition stubborn (n : Z) : process :=
  {| pid := n; returncode := None; signals := [];
     stdout := Some pipe; stderr := Some pipe; stdin := None;
     terminate_raises := None; wait_for := never_exits; kill_raises := None |}.
Definition exited (n : Z) : process :=
  {| pid := n; returncode := Some 0%Z; signals := [];
     stdout := Some pipe; stderr := None; stdin := None;
     terminate_raises := None; wait_for := exits_after 0%Q; kill_raises := None |}.

Definition pool : executor := {| shutdown := fun _ => Returned tt |}.

(** An OS descendant; its handle falls where the pid does in a table of
    eight slots. *)
Definition child (n : Z) (alive : bool) : ps_process :=
  {| ps_pid := n; ps_slot := n mod 8; ps_terminate_raises := None;
     ps_alive_after := fun _ => alive; ps_kill_raises := None |}.

(** Two tracked subprocesses (one exits on SIGTERM, one never does), a
    worker pool, the caller's task 0 and two more tasks, two OS
    descendants, the main thread. *)
Definition busy : state :=
  {| thread_executor := Some pool;
     running_subprocesses := [0; 1];
     procs := fun h => match h with 0 => polite 100%Z | _ => stubborn 101%Z end;
     all_tasks := [0; 1; 2];
     current_task := 0;
     task_settles := fun t =>
       match t with
       | 1 => Some (Failed CancelledError)
       | _ => Some (Failed (ValueError "boom"))
       end;
     ps_children := fun r => if r then [child 100%Z false; child 200%Z true] else [child 100%Z false];
     threads := [{| name := "MainThread"; is_alive := true |}] |}.

(** More environments: calls that fail. *)

Definition KeyboardInterrupt : pyexc :=
  {| exc_str := ""; isinstance_Exception := false;
     isinstance_CancelledError := false; isinstance_TimeoutError := false;
     isinstance_KeyboardInterrupt_SystemExit := true |}.
Definition RuntimeError : pyexc :=
  {| exc_str := "cannot join current thread"; isinstance_Exception := true;
     isinstance_CancelledError := false; isinstance_TimeoutError := false;
     isinstance_KeyboardInterrupt_SystemExit := false |}.

(** An asyncio subprocess started with three pipes: [stdout] and [stderr]
    are StreamReaders, which have no [close] method. *)
Definition piped (n : Z) : process :=
  {| pid := n; returncode := None; signals := [];
     stdout := Some reader; stderr := Some reader; stdin := Some pipe;
     terminate_raises := None; wait_for := exits_after 1%Q; kill_raises := None |}.

(** Already reaped by the child watcher, exit not yet seen by the loop:
    [terminate()] raises ProcessLookupError. *)
Definition reaped (n : Z) : process :=
  {| pid := n; returncode := None; signals := [];
     stdout := Some pipe; stderr := Some pipe; stdin := Some pipe;
     terminate_raises := Some ProcessLookupError; wait_for := exits_after 1%Q;
     kill_raises := None |}.

(** Closing [stdout] is interrupted from the keyboard. *)
Definition interrupted (n : Z) : process :=
  {| pid := n; returncode := None; signals := [];
     stdout := Some {| closed := false; close_raises := Some KeyboardInterrupt |};
     stderr := Some pipe; stdin := Some pipe;
     terminate_raises := None; wait_for := exits_after 1%Q; kill_raises := None |}.


(** Nothing to clean up: no pool, no subprocess, only the caller's task. *)
Definition idle : state :=
  {| thread_executor := None;
     running_subprocesses := [];
     procs := fun _ => exited 0%Z;
     all_tasks := [0];
     current_task := 0;
     task_settles := fun _ => Some (Failed CancelledError);
     ps_children := fun _ => [];
     threads := [{| name := "MainThread"; is_alive := true |}] |}.

(** [idle] with one tracked subprocess, handle 0. *)
Definition tracking (p : process) : state :=
  {| thread_executor := None;
     running_subprocesses := [0];
     procs := fun _ => p;
     all_tasks := [0];
     current_task := 0;
     task_settles := fun _ => Some (Failed CancelledError);
     ps_children := fun _ => [];
     threads := [{| name := "MainThread"; is_alive := true |}] |}.

(** [idle] with a pool handle. *)
Definition pooled (ex : executor) : state :=
  {| thread_executor := Some ex;
     running_subprocesses := [];
     procs := fun _ => exited 0%Z;
     all_tasks := [0];
     current_task := 0;
     task_settles := fun _ => Some (Failed CancelledError);
     ps_children := fun _ => [];
     threads := [{| name := "MainThread"; is_alive := true |}] |}.

(** [idle] with more tasks: task [t] ends as [ends t]. *)
Definition with_tasks (ts : list task_id) (ends : task_id -> option task_outcome)
    : state :=
  {| thread_executor := None;
     running_subprocesses := [];
     procs := fun _ => exited 0%Z;
     all_tasks := 0 :: ts;
     current_task := 0;
     task_settles := ends;
     ps_children := fun _ => [];
     threads := [{| name := "MainThread"; is_alive := true |}] |}.


Definition broken_pool : executor := {| shutdown := fun _ => Raised RuntimeError |}.




(** Three tracked subprocesses; the second has already been reaped. *)
Definition failing : state :=
  {| thread_executor := None;
     running_subprocesses := [0; 1; 2];
     procs := fun h =>
       match h with
       | 0 => polite 100%Z
       | 1 => reaped 101%Z
       | _ => stubborn 102%Z
       end;
     all_tasks := [0];
     current_task := 0;
     task_settles := fun _ => Some (Failed CancelledError);
     ps_children := fun _ => [];
     threads := [{| name := "MainThread"; is_alive := true |}] |}.

(** [idle] with a worker thread that has just ended. *)
Definition lingering : state :=
  {| thread_executor := None;
     running_subprocesses := [];
     procs := fun _ => exited 0%Z;
     all_tasks := [0];
     current_task := 0;
     task_settles := fun _ => Some (Failed CancelledError);
     ps_children := fun _ => [];
     threads := [{| name := "MainThread"; is_alive := true |};
                 {| name := "Thread-1"; is_alive := false |}] |}.

End Samples.

(** ** Vocabulary of the statements *)

(** A frame: a relation between the state before and after that is kept
    along any sequence of steps. *)
Class Frame (R : state -> state -> Prop) : Prop := {
  R_refl : forall s, R s s;
  R_trans : forall s1 s2 s3, R s1 s2 -> R s2 s3 -> R s1 s3
}.

(** Running [m] from any state relates it to the final state. *)
Definition keeps (R : state -> state -> Prop) {A} (m : M A) : Prop :=
  forall s, R s (final (m s)).

(** Every call a computation makes satisfies [P]. *)
Definition emits (P : event -> Prop) {A} (m : M A) : Prop :=
  forall s, Forall P (calls (m s)).

(** The frames: nothing changed; the registry, the pool handle unchanged. *)
Definition same_state (s s' : state) : Prop := s' = s.

Definition same_registry (s s' : state) : Prop :=
  running_subprocesses s' = running_subprocesses s.

Definition same_executor (s s' : state) : Prop :=
  thread_executor s' = thread_executor s.

(** Tasks, OS processes and threads: what stages 4 to 6 read. *)
Definition same_surroundings (s s' : state) : Prop :=
  all_tasks s' = all_tasks s /\ current_task s' = current_task s /\
  task_settles s' = task_settles s /\ ps_children s' = ps_children s /\
  threads s' = threads s.

(** Every subprocess object other than [h] is untouched. *)
Definition same_procs_but (h : proc_id) (s s' : state) : Prop :=
  forall h', h' <> h -> procs s' h' = procs s h'.

(** The calls each stage can make (lines 16-20, 35-52, 58-68, 70-72 and
    80-108 of the source). *)
Definition from_pool (e : event) : bool :=
  match e with
  | Print ShuttingDownPool | Shutdown _ => true
  | _ => false
  end.

Definition from_drain (e : event) : bool :=
  match e with
  | Print (TerminatingSubprocess _) | Print (ForceKillingSubprocess _)
  | Terminate _ | WaitFor _ _ | Kill _ | Close _ _ => true
  | _ => false
  end.

Definition from_tasks (e : event) : bool :=
  match e with
  | Print (CancellingTasks _) | Cancel _ | Sleep _ | Gather _ _ => true
  | _ => false
  end.

Definition from_triage (e : event) : bool :=
  match e with
  | Print (ErrorDuringCleanup _) => true
  | _ => false
  end.

Definition from_sweep (e : event) : bool :=
  match e with
  | Print CheckingThreads | Print (TerminatingProcess _)
  | Print (ForceKillingProcess _) | Print (RemainingThreads _)
  | Print (ThreadLine _ _) | Print ThreadCleanupCompleted
  | Children _ | PsTerminate _ | WaitProcs _ _ | PsKill _ | Enumerate => true
  | _ => false
  end.

Definition is_shutdown (e : event) : bool :=
  match e with Shutdown _ => true | _ => false end.

Definition is_task_call (e : event) : bool :=
  match e with Cancel _ | Gather _ _ => true | _ => false end.

(** Stages 1 to 3, and stages 5 and 6 *)
Definition before_tasks : M unit :=
  console_print CleaningUp ;;
  pool_shutdown ;;
  terminate_subprocesses ;;
  asyncio_sleep 0.1.

Definition after_tasks (results : list pyobject) : M unit :=
  triage results ;;
  kill_all_threads ;;
  console_print CleanupCompleted.

(** [asyncio.wait_for] raised an [asyncio.TimeoutError]. *)
Definition timed_out (p : process) : bool :=
  match wait_for p 3 with
  | WaitRaises e => isinstance_TimeoutError e
  | WaitReturns _ => false
  end.

(** [if stream:] for the slot [f] of [p] *)
Definition present (p : process) (f : std_stream) : bool :=
  match get_stream p f with
  | Some _ => true
  | None => false
  end.

(** [close()] returns, or raises something [except Exception] catches. *)
Definition swallowed (st : stream) : bool :=
  match close_raises st with
  | Some e => isinstance_Exception e
  | None => true
  end.

(** The stream once [close()] has been called on it. *)
Definition after_close (st : stream) : stream :=
  match close_raises st with
  | Some _ => st
  | None => {| closed := true; close_raises := None |}
  end.

(** One turn of the [for stream in (...)] loop, for the slot [f] whose
    content was [slot] when the tuple was built. *)
Definition close_slot (h : proc_id) (slot : option stream) (f : std_stream) : M unit :=
  match slot with
  | Some _ => try_except (stream_close h f) isinstance_Exception (ret tt)
  | None => ret tt
  end.


(** The [close()] calls of the loop of lines 47-52 on the streams of [h]:
    one per stream of the tuple that is present, up to the first that
    raises outside [Exception]. *)
Fixpoint closing (h : proc_id) (p : process) (fs : list std_stream) : trace :=
  match fs with
  | [] => []
  | f :: rest =>
      match get_stream p f with
      | None => closing h p rest
      | Some st => Close h f :: if swallowed st then closing h p rest else []
      end
  end.

(** The slots that come before [f] in the tuple of line 47. *)
Definition slots_before (f : std_stream) : list std_stream :=
  match f with
  | Stdout => []
  | Stderr => [Stdout]
  | Stdin => [Stdout; Stderr]
  end.


(** Lines 37-52, for the process just popped. *)
Definition drain_turn (h : proc_id) : M unit :=
  stop_process h ;; close_streams h.

(** Calls made on the subprocess handle [h] or on one of its streams. *)
Definition on_proc (h : proc_id) (e : event) : bool :=
  match e with
  | Terminate h' | WaitFor h' _ | Kill h' | Close h' _ => Nat.eqb h' h
  | _ => false
  end.

Definition is_signal_call (e : event) : bool :=
  match e with Terminate _ | Kill _ => true | _ => false end.

Definition is_close (e : event) : bool :=
  match e with Close _ _ => true | _ => false end.

(** The calls a completed turn makes on the handle it popped. *)
Definition stop_calls (h : proc_id) (p : process) : trace :=
  match returncode p with
  | Some _ => []
  | None => Terminate h :: WaitFor h 3 :: (if timed_out p then [Kill h] else [])
  end.

(** One [close()] per stream that is present, in the order of the tuple. *)
Definition close_calls (h : proc_id) (p : process) : trace :=
  map (Close h) (filter (present p) [Stdout; Stderr; Stdin]).

(** No subprocess object changed. *)
Definition same_processes (s s' : state) : Prop :=
  forall h, procs s' h = procs s h.

Definition stream_eqb (f g : std_stream) : bool :=
  match f, g with
  | Stdout, Stdout | Stderr, Stderr | Stdin, Stdin => true
  | _, _ => false
  end.

(** [close()] on the stream in slot [f] of [h] *)
Definition closes (h : proc_id) (f : std_stream) (e : event) : bool :=
  match e with
  | Close h' f' => Nat.eqb h' h && stream_eqb f' f
  | _ => false
  end.

(** Line 72 *)
Definition report (r : pyobject) : event := Print (ErrorDuringCleanup (str r)).

(** Lines 89-90, lines 94-95 and line 106, for one element. *)
Definition terminate_script (c : ps_process) : trace :=
  [Print (TerminatingProcess (ps_pid c)); PsTerminate (ps_pid c)].

Definition kill_script (c : ps_process) : trace :=
  [Print (ForceKillingProcess (ps_pid c)); PsKill (ps_pid c)].

Definition thread_line (t : thread) : event :=
  Print (ThreadLine (name t) (is_alive t)).

(** Alive when the shared window of 3 closes, as [wait_procs] lists them. *)
Definition still_alive (s : state) : list ps_process :=
  list_of_set (filter (fun c => ps_alive_after c 3) (distinct (ps_children s true))).




(** The bound an awaited call carries, if any. *)
Definition timeout_of (e : event) : option Q :=
  match e with
  | WaitFor _ t => Some t
  | Sleep d => Some d
  | _ => None
  end.

Definition is_await (e : event) : bool :=
  match e with
  | WaitFor _ _ | Sleep _ | Gather _ _ => true
  | _ => false
  end.

(** The awaits of [cleanup] that do carry a bound: 3 for a subprocess
    exit, 0.1 for the two sleeps. *)
Definition bounded_await (e : event) : Prop :=
  match e with
  | WaitFor _ t => t = 3%Q
  | Sleep d => d = 0.1%Q
  | _ => True
  end.

(** [m] returns or raises from every state. *)
Definition never_blocks {A} (m : M A) : Prop :=
  forall s, outcome (m s) <> Blocked.

(** A subprocess on which the calls of lines 37-44 that are made return,
    except that the wait may time out. *)
Definition stop_returns (p : process) : Prop :=
  returncode p = None ->
  terminate_raises p = None /\
  match wait_for p 3 with
  | WaitReturns _ => True
  | WaitRaises e => isinstance_TimeoutError e = true /\ kill_raises p = None
  end.

(** A subprocess on which every call [cleanup] makes returns, except that
    the wait may time out and a [close()] may raise an [Exception]. *)
Definition obedient (p : process) : Prop :=
  stop_returns p /\
  (forall f st, get_stream p f = Some st -> swallowed st = true).

(** The drain gets to [h]: the pool shutdown returns, and so does every
    call on the handles the registry yields before [h]. *)
Definition reached (s : state) (h : proc_id) : Prop :=
  (forall ex, thread_executor s = Some ex -> shutdown ex true = Returned tt) /\
  exists before after,
    running_subprocesses s = before ++ h :: after /\
    forall h', In h' before -> obedient (procs s h').


(** The calls of lines 37-44 and of lines 37-52 on the popped handle [h]
    when each of them returns or is caught. *)
Definition stop_script (h : proc_id) (p : process) : trace :=
  match returncode p with
  | Some _ => []
  | None =>
      Print (TerminatingSubprocess (pid p)) :: Terminate h :: WaitFor h 3 ::
      (if timed_out p
       then [Print (ForceKillingSubprocess (pid p)); Kill h]
       else [])
  end.

Definition turn_script (h : proc_id) (p : process) : trace :=
  stop_script h p ++ close_calls h p.

(** ** Vocabulary of the further properties *)

(** The four phases of [cleanup]: banner and pool stage; the drain
    ([terminate_subprocesses]); settle sleep, cancellation, join and triage;
    sweep and closing line. *)
Definition prelude : M unit :=
  console_print CleaningUp ;;
  pool_shutdown.

Definition join_part : M unit :=
  asyncio_sleep 0.1 ;;
  results <- cancel_tasks ;;
  triage results.

Definition finish : M unit :=
  kill_all_threads ;;
  console_print CleanupCompleted.

Definition is_banner (e : event) : bool :=
  match e with Print CleaningUp => true | _ => false end.

Definition from_prelude (e : event) : bool := is_banner e || from_pool e.

Definition from_join (e : event) : bool := from_tasks e || from_triage e.

Definition from_finish (e : event) : bool :=
  from_sweep e || match e with Print CleanupCompleted => true | _ => false end.

(** The calls [m] makes from [s] are an initial segment of [full], and all
    of it when [m] returns. *)
Definition follows {A} (m : M A) (s : state) (full : trace) : Prop :=
  exists rest, full = calls (m s) ++ rest /\
               forall a, outcome (m s) = Returned a -> rest = [].

(** Lines 82-108 when nothing raises: the survivors are killed in the order
    in which [wait_procs] lists them. *)
Definition sweep_script (s : state) : trace :=
  Print CheckingThreads :: Children true ::
  flat_map terminate_script (ps_children s true) ++
  WaitProcs (map ps_pid (ps_children s true)) 3 ::
  flat_map kill_script (still_alive s) ++
  Enumerate :: Enumerate :: Print (RemainingThreads (length (threads s))) ::
  map thread_line (threads s) ++ [Print ThreadCleanupCompleted].


Definition is_thread_report (e : event) : bool :=
  match e with
  | Print (RemainingThreads _) | Print (ThreadLine _ _) => true
  | _ => false
  end.

(** What a subprocess object can only gain: its pid and stream slots stay,
    a known exit status stays, delivered signals stay, a closed stream
    stays closed. *)
Definition evolves (p p' : process) : Prop :=
  pid p' = pid p /\
  (forall c, returncode p = Some c -> returncode p' = Some c) /\
  (exists tail, signals p' = signals p ++ tail) /\
  (forall f,
     match get_stream p f with
     | None => get_stream p' f = None
     | Some st => exists st', get_stream p' f = Some st' /\
                              (closed st = true -> closed st' = true)
     end).

Definition all_evolve (s s' : state) : Prop :=
  forall h, evolves (procs s h) (procs s' h).

(** [close()] calls leave everything but the streams as it is. *)
Definition only_streams (s s' : state) : Prop :=
  forall h,
    pid (procs s' h) = pid (procs s h) /\
    returncode (procs s' h) = returncode (procs s h) /\
    signals (procs s' h) = signals (procs s h).

(** The signals one run sends through one subprocess handle. *)
Definition signal_tail (tail : list signal) : Prop :=
  tail = [] \/ tail = [SIGTERM] \/ tail = [SIGTERM; SIGKILL].

Definition stops (e : event) : bool := from_pool e || from_drain e.

Definition is_wait (e : event) : bool :=
  match e with WaitFor _ _ => true | _ => false end.

Definition is_kill (e : event) : bool :=
  match e with Kill _ => true | _ => false end.

(** [proc.returncode is None] for the handle [h] in state [s] *)
Definition running (s : state) (h : proc_id) : bool :=
  match returncode (procs s h) with
  | None => true
  | Some _ => false
  end.

(** What entitles [cleanup] to a terminate or kill call: through a
    subprocess handle [h], or through the psutil handle of the process with
    pid [p]. *)
Definition entitled (s : state) (e : event) : Prop :=
  match e with
  | Terminate h =>
      In h (running_subprocesses s) /\ returncode (procs s h) = None
  | Kill h =>
      In h (running_subprocesses s) /\ returncode (procs s h) = None /\
      terminate_raises (procs s h) = None /\ timed_out (procs s h) = true
  | PsTerminate p =>
      exists c, In c (ps_children s true) /\ ps_pid c = p
  | PsKill p =>
      exists c, In c (ps_children s true) /\ ps_pid c = p /\
                ps_alive_after c 3 = true
  | _ => True
  end.

Definition is_ps_signal (e : event) : bool :=
  match e with PsTerminate _ | PsKill _ => true | _ => false end.

(** ** Runs of composed computations *)

Lemma bind_run {A B} (m : M A) (k : A -> M B) (s : state) :
  bind m k s =
  match outcome (m s) with
  | Returned a =>
      (outcome (k a (final (m s))), final (k a (final (m s))),
       calls (m s) ++ calls (k a (final (m s))))
  | Raised e => (Raised e, final (m s), calls (m s))
  | Blocked => (Blocked, final (m s), calls (m s))
  end.
Proof.
  unfold bind, outcome, final, calls.
  destruct (m s) as [[[a|e|] s1] t1]; simpl; trivial.
  destruct (k a s1) as [[r s2] t2]; trivial.
Qed.

Lemma bind_returned {A B} (m : M A) (k : A -> M B) (s : state) (b : B) :
  outcome (bind m k s) = Returned b ->
  exists a,
    outcome (m s) = Returned a /\
    outcome (k a (final (m s))) = Returned b /\
    final (bind m k s) = final (k a (final (m s))) /\
    calls (bind m k s) = calls (m s) ++ calls (k a (final (m s))).
Proof.
  rewrite bind_run.
  destruct (outcome (m s)) as [a|e|]; simpl; try discriminate.
  intros Hk. exists a. auto.
Qed.

Lemma bind_step {A B} (m : M A) (k : A -> M B) (s : state) (a : A) :
  outcome (m s) = Returned a ->
  bind m k s =
  (outcome (k a (final (m s))), final (k a (final (m s))),
   calls (m s) ++ calls (k a (final (m s)))).
Proof. intros H. rewrite bind_run, H. reflexivity. Qed.

Lemma calls_bind {A B} (m : M A) (k : A -> M B) (s : state) :
  calls (bind m k s) =
  calls (m s) ++
  match outcome (m s) with
  | Returned a => calls (k a (final (m s)))
  | _ => []
  end.
Proof.
  rewrite bind_run.
  destruct (outcome (m s)); unfold calls at 1; simpl;
    rewrite ?app_nil_r; reflexivity.
Qed.

Lemma outcome_bind {A B} (m : M A) (k : A -> M B) (s : state) :
  outcome (bind m k s) =
  match outcome (m s) with
  | Returned a => outcome (k a (final (m s)))
  | Raised e => Raised e
  | Blocked => Blocked
  end.
Proof. rewrite bind_run. destruct (outcome (m s)); reflexivity. Qed.

Lemma final_bind {A B} (m : M A) (k : A -> M B) (s : state) :
  final (bind m k s) =
  match outcome (m s) with
  | Returned a => final (k a (final (m s)))
  | _ => final (m s)
  end.
Proof. rewrite bind_run. destruct (outcome (m s)); reflexivity. Qed.



Lemma outcome_run {A} (r : result A) (s : state) (t : trace) : outcome (r, s, t) = r.
Proof. reflexivity. Qed.

Lemma final_run {A} (r : result A) (s : state) (t : trace) : final (r, s, t) = s.
Proof. reflexivity. Qed.

Lemma calls_run {A} (r : result A) (s : state) (t : trace) : calls (r, s, t) = t.
Proof. reflexivity. Qed.

Lemma try_except_run {A} (body : M A) catches (handler : M A) (s : state) :
  try_except body catches handler s =
  match outcome (body s) with
  | Raised e =>
      if catches e
      then (outcome (handler (final (body s))), final (handler (final (body s))),
            calls (body s) ++ calls (handler (final (body s))))
      else (Raised e, final (body s), calls (body s))
  | other => (other, final (body s), calls (body s))
  end.
Proof.
  unfold try_except, outcome, final, calls.
  destruct (body s) as [[[a|e|] s1] t1]; simpl; trivial.
  destruct (catches e); trivial.
  destruct (handler s1) as [[r s2] t2]; trivial.
Qed.

(** *** Frame conditions: a relation every step of a computation keeps *)

Section Keeps.
Context {R : state -> state -> Prop} {frame_R : Frame R}.
Local Abbreviation keeps := (keeps R).

Lemma keeps_answer {A} (r : result A) : keeps (answer r).
Proof. intro s. apply R_refl. Qed.

Lemma keeps_ret {A} (a : A) : keeps (ret a).
Proof. intro s. apply R_refl. Qed.

Lemma keeps_gets {A} (f : state -> A) : keeps (gets f).
Proof. intro s. apply R_refl. Qed.

Lemma keeps_emit e : keeps (emit e).
Proof. intro s. apply R_refl. Qed.

Lemma keeps_raise {A} e : keeps (@raise A e).
Proof. intro s. apply R_refl. Qed.

Lemma keeps_block {A} : keeps (@block A).
Proof. intro s. apply R_refl. Qed.

Lemma keeps_modify f : (forall s, R s (f s)) -> keeps (modify f).
Proof. intros H s. apply H. Qed.

Lemma keeps_bind {A B} (m : M A) (k : A -> M B) :
  keeps m -> (forall a, keeps (k a)) -> keeps (bind m k).
Proof.
  intros Hm Hk s. rewrite bind_run.
  destruct (outcome (m s)) as [a|e|] eqn:E; unfold final at 1; simpl;
    try apply Hm.
  eapply R_trans; [apply Hm | apply Hk].
Qed.

Lemma keeps_try_except {A} (body : M A) catches (handler : M A) :
  keeps body -> keeps handler -> keeps (try_except body catches handler).
Proof.
  intros Hb Hh s. rewrite try_except_run.
  destruct (outcome (body s)) as [a|e|] eqn:E; unfold final at 1; simpl;
    try apply Hb.
  destruct (catches e); simpl; [|apply Hb].
  eapply R_trans; [apply Hb | apply Hh].
Qed.

Lemma keeps_for_each {A} (xs : list A) (body : A -> M unit) :
  (forall x, keeps (body x)) -> keeps (for_each xs body).
Proof.
  intros Hb. induction xs as [|x xs IH]; simpl.
  - apply keeps_ret.
  - apply keeps_bind; auto.
Qed.
End Keeps.

(** *** Event classes: a property of every call a computation makes *)

Section Emits.
Variable P : event -> Prop.
Local Abbreviation emits := (emits P).

Lemma emits_answer {A} (r : result A) : emits (answer r).
Proof. intro s. constructor. Qed.

Lemma emits_ret {A} (a : A) : emits (ret a).
Proof. intro s. constructor. Qed.

Lemma emits_gets {A} (f : state -> A) : emits (gets f).
Proof. intro s. constructor. Qed.

Lemma emits_modify f : emits (modify f).
Proof. intro s. constructor. Qed.

Lemma emits_raise {A} e : emits (@raise A e).
Proof. intro s. constructor. Qed.

Lemma emits_block {A} : emits (@block A).
Proof. intro s. constructor. Qed.

Lemma emits_emit e : P e -> emits (emit e).
Proof. intros H s. repeat constructor. exact H. Qed.

Lemma emits_bind {A B} (m : M A) (k : A -> M B) :
  emits m -> (forall a, emits (k a)) -> emits (bind m k).
Proof.
  intros Hm Hk s. rewrite bind_run.
  destruct (outcome (m s)) as [a|e|] eqn:E; unfold calls at 1; simpl;
    try apply Hm.
  apply Forall_app. split; [apply Hm | apply Hk].
Qed.

Lemma emits_try_except {A} (body : M A) catches (handler : M A) :
  emits body -> emits handler -> emits (try_except body catches handler).
Proof.
  intros Hb Hh s. rewrite try_except_run.
  destruct (outcome (body s)) as [a|e|] eqn:E; unfold calls at 1; simpl;
    try apply Hb.
  destruct (catches e); simpl; [|apply Hb].
  apply Forall_app. split; [apply Hb | apply Hh].
Qed.

Lemma emits_for_each {A} (xs : list A) (body : A -> M unit) :
  (forall x, emits (body x)) -> emits (for_each xs body).
Proof.
  intros Hb. induction xs as [|x xs IH]; simpl.
  - apply emits_ret.
  - apply emits_bind; auto.
Qed.
End Emits.

(** *** The frames used below *)

#[export] Instance same_state_frame : Frame same_state.
Proof. split; unfold same_state; intros; congruence. Qed.

#[export] Instance same_registry_frame : Frame same_registry.
Proof. split; unfold same_registry; intros; congruence. Qed.

#[export] Instance same_executor_frame : Frame same_executor.
Proof. split; unfold same_executor; intros; congruence. Qed.

#[export] Instance same_surroundings_frame : Frame same_surroundings.
Proof.
  split; unfold same_surroundings; intros; intuition congruence.
Qed.

#[export] Instance same_procs_but_frame h : Frame (same_procs_but h).
Proof.
  split; unfold same_procs_but; intros; auto.
  rewrite H0, H; auto.
Qed.

Lemma set_proc_other (h h' : proc_id) (p : process) (s : state) :
  h' <> h -> procs (set_proc h p s) h' = procs s h'.
Proof. intros Hne. simpl. apply Nat.eqb_neq in Hne. rewrite Hne. reflexivity. Qed.

Ltac unfold_calls :=
  unfold console_print, executor_shutdown, proc_terminate, proc_wait_for,
    proc_kill, stream_close, asyncio_sleep, task_cancel, asyncio_gather,
    psutil_children, ps_terminate, ps_kill, psutil_wait_procs,
    threading_enumerate.

Ltac frame_step :=
  match goal with
  | |- forall _, _ => intro
  | |- keeps _ (bind _ _) => apply keeps_bind
  | |- keeps _ (ret _) => apply keeps_ret
  | |- keeps _ (gets _) => apply keeps_gets
  | |- keeps _ (emit _) => apply keeps_emit
  | |- keeps _ (raise _) => apply keeps_raise
  | |- keeps _ block => apply keeps_block
  | |- keeps _ (answer _) => apply keeps_answer
  | |- keeps _ (try_except _ _ _) => apply keeps_try_except
  | |- keeps _ (for_each _ _) => apply keeps_for_each
  | |- keeps _ (modify _) => apply keeps_modify
  | |- keeps _ (match ?x with _ => _ end) => destruct x
  end.

Ltac frame := unfold_calls; repeat frame_step.

Ltac emits_step :=
  match goal with
  | |- forall _, _ => intro
  | |- emits _ (bind _ _) => apply emits_bind
  | |- emits _ (ret _) => apply emits_ret
  | |- emits _ (gets _) => apply emits_gets
  | |- emits _ (modify _) => apply emits_modify
  | |- emits _ (emit _) => apply emits_emit
  | |- emits _ (raise _) => apply emits_raise
  | |- emits _ block => apply emits_block
  | |- emits _ (answer _) => apply emits_answer
  | |- emits _ (try_except _ _ _) => apply emits_try_except
  | |- emits _ (for_each _ _) => apply emits_for_each
  | |- emits _ (match ?x with _ => _ end) => destruct x
  end.

Ltac event_class := unfold_calls; repeat emits_step.

(** *** Which stage touches what *)

Lemma stop_process_registry h : keeps same_registry (stop_process h).
Proof. unfold stop_process. frame; reflexivity. Qed.

Lemma close_streams_registry h : keeps same_registry (close_streams h).
Proof. unfold close_streams. frame; reflexivity. Qed.

Lemma stop_process_executor h : keeps same_executor (stop_process h).
Proof. unfold stop_process. frame; reflexivity. Qed.

Lemma close_streams_executor h : keeps same_executor (close_streams h).
Proof. unfold close_streams. frame; reflexivity. Qed.

Lemma stop_process_surroundings h : keeps same_surroundings (stop_process h).
Proof. unfold stop_process. frame; repeat split. Qed.

Lemma close_streams_surroundings h : keeps same_surroundings (close_streams h).
Proof. unfold close_streams. frame; repeat split. Qed.

Lemma stop_process_others h : keeps (same_procs_but h) (stop_process h).
Proof.
  unfold stop_process. frame; intros h' Hne; apply set_proc_other; exact Hne.
Qed.

Lemma close_streams_others h : keeps (same_procs_but h) (close_streams h).
Proof.
  unfold close_streams. frame; intros h' Hne; apply set_proc_other; exact Hne.
Qed.

Lemma drain_executor pending : keeps same_executor (drain pending).
Proof.
  induction pending as [|h rest IH]; simpl.
  - apply keeps_ret.
  - frame; try reflexivity; auto using stop_process_executor, close_streams_executor.
Qed.

Lemma drain_surroundings pending : keeps same_surroundings (drain pending).
Proof.
  induction pending as [|h rest IH]; simpl.
  - apply keeps_ret.
  - frame; try (repeat split; fail);
      auto using stop_process_surroundings, close_streams_surroundings.
Qed.

Lemma pool_shutdown_registry : keeps same_registry pool_shutdown.
Proof. unfold pool_shutdown. frame; reflexivity. Qed.

Lemma pool_shutdown_surroundings : keeps same_surroundings pool_shutdown.
Proof. unfold pool_shutdown. frame; repeat split. Qed.

Lemma cancel_tasks_pure : keeps same_state cancel_tasks.
Proof. unfold cancel_tasks. frame. Qed.

Lemma triage_pure results : keeps same_state (triage results).
Proof. unfold triage. frame. Qed.

Lemma kill_all_threads_pure : keeps same_state kill_all_threads.
Proof. unfold kill_all_threads. frame. Qed.

(** ** The run of [cleanup], stage by stage *)

Lemma cleanup_returned (s : state) :
  outcome (cleanup s) = Returned tt ->
  exists s1 s2 results,
    pool_shutdown s = (Returned tt, s1, calls (pool_shutdown s)) /\
    terminate_subprocesses s1 =
      (Returned tt, s2, calls (terminate_subprocesses s1)) /\
    cancel_tasks s2 = (Returned results, s2, calls (cancel_tasks s2)) /\
    triage results s2 = (Returned tt, s2, calls (triage results s2)) /\
    kill_all_threads s2 = (Returned tt, s2, calls (kill_all_threads s2)) /\
    final (cleanup s) = s2 /\
    calls (cleanup s) =
      Print CleaningUp :: calls (pool_shutdown s) ++
      calls (terminate_subprocesses s1) ++
      Sleep 0.1 :: calls (cancel_tasks s2) ++
      calls (triage results s2) ++
      calls (kill_all_threads s2) ++ [Print CleanupCompleted].
Proof.
  intros H. unfold cleanup in H |- *.
  apply bind_returned in H as ([] & _ & H & F0 & C0).
  rewrite F0, C0. clear F0 C0.
  change (final (console_print CleaningUp s)) with s in *.
  change (calls (console_print CleaningUp s)) with [Print CleaningUp].
  apply bind_returned in H as ([] & H1 & H & F1 & C1). rewrite F1, C1. clear F1 C1.
  set (s1 := final (pool_shutdown s)) in *.
  apply bind_returned in H as ([] & H2 & H & F2 & C2). rewrite F2, C2. clear F2 C2.
  set (s2 := final (terminate_subprocesses s1)) in *.
  apply bind_returned in H as ([] & _ & H & F3 & C3). rewrite F3, C3. clear F3 C3.
  change (final (asyncio_sleep 0.1 s2)) with s2 in *.
  change (calls (asyncio_sleep 0.1 s2)) with [Sleep 0.1].
  apply bind_returned in H as (results & H4 & H & F4 & C4). rewrite F4, C4. clear F4 C4.
  pose proof (cancel_tasks_pure s2) as P4. unfold same_state in P4. rewrite P4 in *.
  apply bind_returned in H as ([] & H5 & H & F5 & C5). rewrite F5, C5. clear F5 C5.
  pose proof (triage_pure results s2) as P5. unfold same_state in P5. rewrite P5 in *.
  apply bind_returned in H as ([] & H6 & H & F6 & C6). rewrite F6, C6. clear F6 C6.
  pose proof (kill_all_threads_pure s2) as P6. unfold same_state in P6. rewrite P6 in *.
  exists s1, s2, results.
  repeat apply conj.
  - rewrite (surjective_pairing (pool_shutdown s)),
      (surjective_pairing (fst (pool_shutdown s))).
    unfold outcome in H1. rewrite H1. reflexivity.
  - rewrite (surjective_pairing (terminate_subprocesses s1)),
      (surjective_pairing (fst (terminate_subprocesses s1))).
    unfold outcome in H2. rewrite H2. reflexivity.
  - rewrite (surjective_pairing (cancel_tasks s2)),
      (surjective_pairing (fst (cancel_tasks s2))).
    unfold outcome in H4. rewrite H4. unfold final in P4. rewrite P4. reflexivity.
  - rewrite (surjective_pairing (triage results s2)),
      (surjective_pairing (fst (triage results s2))).
    unfold outcome in H5. rewrite H5. unfold final in P5. rewrite P5. reflexivity.
  - rewrite (surjective_pairing (kill_all_threads s2)),
      (surjective_pairing (fst (kill_all_threads s2))).
    unfold outcome in H6. rewrite H6. unfold final in P6. rewrite P6. reflexivity.
  - reflexivity.
  - reflexivity.
Qed.

(** ** The subprocess registry after the drain *)

Lemma drain_empties (pending : list proc_id) : forall s,
  running_subprocesses s = pending ->
  outcome (drain pending s) = Returned tt ->
  running_subprocesses (final (drain pending s)) = [].
Proof.
  induction pending as [|h rest IH]; intros s Hreg H.
  - exact Hreg.
  - simpl in H |- *.
    apply bind_returned in H as ([] & _ & H & F0 & _). rewrite F0. clear F0.
    change (final (modify (set_running_subprocesses rest) s))
      with (set_running_subprocesses rest s) in *.
    set (s0 := set_running_subprocesses rest s) in *.
    apply bind_returned in H as ([] & _ & H & F1 & _). rewrite F1. clear F1.
    apply bind_returned in H as ([] & _ & H & F2 & _). rewrite F2. clear F2.
    apply IH; [|exact H].
    rewrite (close_streams_registry h), (stop_process_registry h).
    reflexivity.
Qed.

Lemma terminate_subprocesses_empties (s : state) :
  outcome (terminate_subprocesses s) = Returned tt ->
  running_subprocesses (final (terminate_subprocesses s)) = [].
Proof.
  unfold terminate_subprocesses. intros H.
  apply bind_returned in H as (pending & Hp & H & F & _). rewrite F.
  apply drain_empties; [|exact H].
  unfold outcome in Hp. simpl in Hp. injection Hp as Hp. exact Hp.
Qed.

(** C2. Whatever the registry holds when [cleanup()] is called, it is empty
    when [cleanup()] has returned. *)
Theorem registry_empty_after_cleanup (s : state) :
  outcome (cleanup s) = Returned tt ->
  running_subprocesses (final (cleanup s)) = [].
Proof.
  intros H.
  destruct (cleanup_returned s H) as (s1 & s2 & results & _ & H2 & _ & _ & _ & F & _).
  rewrite F.
  assert (E : outcome (terminate_subprocesses s1) = Returned tt)
    by (rewrite H2; reflexivity).
  apply terminate_subprocesses_empties in E.
  rewrite H2 in E. exact E.
Qed.

Lemma registry_empty_after_cleanup_witness :
  running_subprocesses Samples.busy = [0; 1] /\
  outcome (cleanup Samples.busy) = Returned tt /\
  running_subprocesses (final (cleanup Samples.busy)) = [].
Proof.
  split; [reflexivity|]. split; [reflexivity|].
  apply (registry_empty_after_cleanup Samples.busy). reflexivity.
Defined.

(** ** Which stage makes which calls *)

Lemma pool_shutdown_calls : emits (fun e => from_pool e = true) pool_shutdown.
Proof. unfold pool_shutdown. event_class; reflexivity. Qed.

Lemma stop_process_calls h : emits (fun e => from_drain e = true) (stop_process h).
Proof. unfold stop_process. event_class; reflexivity. Qed.

Lemma close_streams_calls h : emits (fun e => from_drain e = true) (close_streams h).
Proof. unfold close_streams. event_class; reflexivity. Qed.

Lemma drain_calls pending : emits (fun e => from_drain e = true) (drain pending).
Proof.
  induction pending as [|h rest IH]; simpl.
  - apply emits_ret.
  - event_class; auto using stop_process_calls, close_streams_calls.
Qed.

Lemma terminate_subprocesses_calls :
  emits (fun e => from_drain e = true) terminate_subprocesses.
Proof. unfold terminate_subprocesses. event_class. apply drain_calls. Qed.

Lemma cancel_tasks_calls : emits (fun e => from_tasks e = true) cancel_tasks.
Proof. unfold cancel_tasks. event_class; reflexivity. Qed.

Lemma triage_calls results : emits (fun e => from_triage e = true) (triage results).
Proof. unfold triage. event_class; reflexivity. Qed.

Lemma kill_all_threads_calls : emits (fun e => from_sweep e = true) kill_all_threads.
Proof. unfold kill_all_threads. event_class; reflexivity. Qed.

Lemma filter_none {A} (f : A -> bool) (l : list A) :
  Forall (fun x => f x = false) l -> filter f l = [].
Proof.
  induction 1 as [|x l Hx _ IH]; simpl; [reflexivity|].
  rewrite Hx. exact IH.
Qed.

Lemma filter_excluded {A} (f g : A -> bool) (l : list A) :
  (forall x, g x = true -> f x = false) ->
  Forall (fun x => g x = true) l -> filter f l = [].
Proof.
  intros Hfg Hl. apply filter_none.
  eapply Forall_impl; [|exact Hl]. exact Hfg.
Qed.

Ltac other_stage :=
  let e := fresh "e" in
  intros e; destruct e as [[]| | | | | | | | | | | | |]; simpl;
  intros; congruence.

(** ** The worker pool handle *)

Lemma pool_shutdown_absent (s : state) :
  thread_executor s = None -> pool_shutdown s = (Returned tt, s, []).
Proof. intros H. unfold pool_shutdown, bind, gets. simpl. rewrite H. reflexivity. Qed.

Lemma pool_shutdown_present (s : state) (ex : executor) :
  thread_executor s = Some ex ->
  pool_shutdown s =
  (shutdown ex true,
   match shutdown ex true with
   | Returned _ => set_thread_executor None s
   | _ => s
   end,
   [Print ShuttingDownPool; Shutdown true]).
Proof.
  intros H. unfold pool_shutdown, bind, gets. simpl. rewrite H. simpl.
  destruct (shutdown ex true) as [[]|e|]; reflexivity.
Qed.

(** C9. After [cleanup()] has returned the pool handle is [None].  If a
    handle was set, the pool stage called [shutdown(wait=True)] on it, that
    call returned, the handle was cleared next, and no other shutdown call
    was made during [cleanup()]; if none was set, the pool stage made no
    call, changed nothing and raised nothing. *)
Theorem pool_handle_after_cleanup (s : state) :
  outcome (cleanup s) = Returned tt ->
  thread_executor (final (cleanup s)) = None /\
  match thread_executor s with
  | Some ex =>
      shutdown ex true = Returned tt /\
      pool_shutdown s =
        (Returned tt, set_thread_executor None s,
         [Print ShuttingDownPool; Shutdown true]) /\
      filter is_shutdown (calls (cleanup s)) = [Shutdown true]
  | None =>
      pool_shutdown s = (Returned tt, s, []) /\
      filter is_shutdown (calls (cleanup s)) = []
  end.
Proof.
  intros H.
  destruct (cleanup_returned s H)
    as (s1 & s2 & results & H1 & H2 & _ & _ & _ & F & C).
  assert (N2 : filter is_shutdown (calls (terminate_subprocesses s1)) = []).
  { eapply filter_excluded; [|apply terminate_subprocesses_calls]. other_stage. }
  assert (N4 : filter is_shutdown (calls (cancel_tasks s2)) = []).
  { eapply filter_excluded; [|apply cancel_tasks_calls]. other_stage. }
  assert (N5 : filter is_shutdown (calls (triage results s2)) = []).
  { eapply filter_excluded; [|apply triage_calls]. other_stage. }
  assert (N6 : filter is_shutdown (calls (kill_all_threads s2)) = []).
  { eapply filter_excluded; [|apply kill_all_threads_calls]. other_stage. }
  assert (E2 : thread_executor s2 = thread_executor s1).
  { pose proof (drain_executor (running_subprocesses s1) s1) as K.
    unfold terminate_subprocesses, bind, gets in H2. simpl in H2.
    unfold same_executor, final in K.
    destruct (drain (running_subprocesses s1) s1) as [[r s'] t].
    destruct r; inversion H2; subst. exact K. }
  rewrite C, F, E2. simpl.
  rewrite !filter_app. simpl. rewrite !filter_app. simpl.
  rewrite N2, N4, N5, N6. simpl. rewrite app_nil_r.
  destruct (thread_executor s) as [ex|] eqn:Hex.
  - rewrite (pool_shutdown_present s Hex) in H1 |- *.
    injection H1 as Hr Hs. rewrite Hr in Hs |- *. subst s1.
    repeat apply conj; reflexivity.
  - rewrite (pool_shutdown_absent s Hex) in H1 |- *.
    injection H1 as Hs. subst s1.
    repeat apply conj; trivial.
Qed.

Lemma pool_handle_after_cleanup_witness :
  thread_executor Samples.busy = Some Samples.pool /\
  thread_executor (final (cleanup Samples.busy)) = None /\
  filter is_shutdown (calls (cleanup Samples.busy)) = [Shutdown true].
Proof.
  split; [reflexivity|].
  pose proof (pool_handle_after_cleanup Samples.busy eq_refl) as [H1 H2].
  split; [exact H1|]. simpl in H2. apply H2.
Defined.

(** ** Task cancellation *)

Lemma bind_assoc {A B C} (m : M A) (k : A -> M B) (k' : B -> M C) (s : state) :
  bind (bind m k) k' s = bind m (fun a => bind (k a) k') s.
Proof.
  unfold bind.
  destruct (m s) as [[[a|e|] s1] t1]; trivial.
  destruct (k a s1) as [[[b|e|] s2] t2]; trivial.
  destruct (k' b s2) as [[r s3] t3]. rewrite app_assoc. reflexivity.
Qed.

Lemma bind_ext {A B} (m : M A) (k k' : A -> M B) (s : state) :
  (forall a s', k a s' = k' a s') -> bind m k s = bind m k' s.
Proof.
  intros H. unfold bind.
  destruct (m s) as [[[a|e|] s1] t1]; trivial. rewrite H. reflexivity.
Qed.

Lemma cleanup_split (s : state) :
  cleanup s =
  bind before_tasks (fun _ => results <- cancel_tasks ;; after_tasks results) s.
Proof.
  unfold cleanup, before_tasks, after_tasks.
  rewrite !bind_assoc. apply bind_ext. intros [] s1.
  rewrite !bind_assoc. apply bind_ext. intros [] s2.
  rewrite !bind_assoc. reflexivity.
Qed.

Lemma before_tasks_surroundings : keeps same_surroundings before_tasks.
Proof.
  unfold before_tasks, terminate_subprocesses.
  frame; try (repeat split; fail).
  - apply pool_shutdown_surroundings.
  - apply drain_surroundings.
Qed.

Lemma before_tasks_calls : emits (fun e => is_task_call e = false) before_tasks.
Proof.
  unfold before_tasks. event_class; try reflexivity.
  - intro s. eapply Forall_impl; [|apply pool_shutdown_calls]. other_stage.
  - intro s. eapply Forall_impl; [|apply terminate_subprocesses_calls]. other_stage.
Qed.

Lemma after_tasks_calls results :
  emits (fun e => is_task_call e = false) (after_tasks results).
Proof.
  unfold after_tasks. event_class; try reflexivity.
  - intro s. eapply Forall_impl; [|apply triage_calls]. other_stage.
  - intro s. eapply Forall_impl; [|apply kill_all_threads_calls]. other_stage.
Qed.

Lemma for_each_emit {A} (xs : list A) (f : A -> event) (s : state) :
  for_each xs (fun x => emit (f x)) s = (Returned tt, s, map f xs).
Proof.
  induction xs as [|x xs IH]; simpl; [reflexivity|].
  unfold bind at 1. simpl. rewrite IH. reflexivity.
Qed.

Lemma cancel_all_run (ts : list task_id) (s : state) :
  for_each ts task_cancel s = (Returned tt, s, map Cancel ts).
Proof. exact (for_each_emit ts Cancel s). Qed.

Lemma cancel_tasks_run (s : state) :
  cancel_tasks s =
  (match settle_all (task_settles s) (other_tasks s) with
   | Some os =>
       match leaves_loop os with
       | Some e => Raised e
       | None => Returned (map gathered os)
       end
   | None => Blocked
   end,
   s,
   Print (CancellingTasks (length (other_tasks s))) ::
   map Cancel (other_tasks s) ++
   [Sleep 0.1; Gather (other_tasks s) true]).
Proof.
  unfold cancel_tasks, asyncio_gather, asyncio_sleep, console_print.
  unfold bind, gets, emit. rewrite cancel_all_run. simpl.
  destruct (settle_all (task_settles s) (other_tasks s)) as [os|]; [|reflexivity].
  destruct (leaves_loop os); reflexivity.
Qed.

Lemma other_tasks_spec (s : state) (t : task_id) :
  In t (other_tasks s) <-> In t (all_tasks s) /\ t <> current_task s.
Proof.
  unfold other_tasks. rewrite filter_In, negb_true_iff, Nat.eqb_neq. tauto.
Qed.

Lemma other_tasks_surroundings (s s' : state) :
  same_surroundings s s' -> other_tasks s' = other_tasks s.
Proof.
  intros (Ha & Hc & _). unfold other_tasks. rewrite Ha, Hc. reflexivity.
Qed.

(** In a run of [cleanup] the cancel requests, the grace sleep and the join
    form one block; no other cancel or gather call is made. *)
Lemma cleanup_task_calls (s : state) :
  match outcome (before_tasks s) with
  | Returned _ =>
      exists post,
        calls (cleanup s) =
          calls (before_tasks s) ++
          Print (CancellingTasks (length (other_tasks s))) ::
          map Cancel (other_tasks s) ++
          [Sleep 0.1; Gather (other_tasks s) true] ++ post /\
        filter is_task_call post = []
  | _ => calls (cleanup s) = calls (before_tasks s)
  end /\
  filter is_task_call (calls (before_tasks s)) = [].
Proof.
  split; [|apply filter_none, before_tasks_calls].
  rewrite cleanup_split, calls_bind.
  pose proof (before_tasks_surroundings s) as Hsur.
  apply other_tasks_surroundings in Hsur.
  destruct (outcome (before_tasks s)) as [[]|e|]; try apply app_nil_r.
  set (s2 := final (before_tasks s)) in *.
  rewrite calls_bind, cancel_tasks_run. unfold outcome, final, calls at 2.
  simpl. rewrite Hsur.
  eexists. split.
  - f_equal. f_equal. rewrite <- app_assoc. reflexivity.
  - destruct (settle_all (task_settles s2) (other_tasks s)) as [os|];
      [|reflexivity].
    destruct (leaves_loop os); [reflexivity|].
    apply filter_none, after_tasks_calls.
Qed.

(** C8. The cancellation stage asks every task of [asyncio.all_tasks()]
    other than the caller's own to cancel, and only then sleeps and joins.
    A run of [cleanup()] in which the pool stage, the drain and the settle
    sleep have returned goes on with exactly these calls: the count line,
    one cancel request per task, the grace sleep, the join; it makes no
    cancel or gather call before or after them.  A run that ends before
    makes none at all. *)
Theorem cancel_before_wait (s : state) :
  (forall t, In t (other_tasks s) <-> In t (all_tasks s) /\ t <> current_task s) /\
  calls (cancel_tasks s) =
    Print (CancellingTasks (length (other_tasks s))) ::
    map Cancel (other_tasks s) ++ [Sleep 0.1; Gather (other_tasks s) true] /\
  match outcome (before_tasks s) with
  | Returned _ =>
      exists post,
        calls (cleanup s) =
          calls (before_tasks s) ++
          Print (CancellingTasks (length (other_tasks s))) ::
          map Cancel (other_tasks s) ++
          [Sleep 0.1; Gather (other_tasks s) true] ++ post /\
        filter is_task_call post = []
  | _ => calls (cleanup s) = calls (before_tasks s)
  end /\
  filter is_task_call (calls (before_tasks s)) = [].
Proof.
  split; [apply other_tasks_spec|].
  split; [rewrite cancel_tasks_run; reflexivity|].
  apply cleanup_task_calls.
Qed.

Lemma cancel_before_wait_witness :
  all_tasks Samples.busy = [0; 1; 2] /\
  current_task Samples.busy = 0 /\
  outcome (before_tasks Samples.busy) = Returned tt /\
  exists post,
    calls (cleanup Samples.busy) =
      calls (before_tasks Samples.busy) ++
      [Print (CancellingTasks 2); Cancel 1; Cancel 2; Sleep 0.1; Gather [1; 2] true] ++
      post /\
    filter is_task_call post = [].
Proof.
  split; [reflexivity|]. split; [reflexivity|]. split; [reflexivity|].
  destruct (cancel_before_wait Samples.busy) as (_ & _ & H & _).
  assert (E : outcome (before_tasks Samples.busy) = Returned tt) by reflexivity.
  rewrite E in H. destruct H as (post & C & N).
  exists post. split; [exact C | exact N].
Defined.

(** ** The termination protocol on one subprocess *)

Ltac run_calls :=
  unfold_calls;
  unfold bind, try_except, gets, modify, emit, ret, raise, block, answer,
    outcome, final, calls; simpl.

Lemma stop_process_script (h : proc_id) (s : state) :
  let p := procs s h in
  calls (stop_process h s) =
  match returncode p with
  | Some _ => []
  | None =>
      Print (TerminatingSubprocess (pid p)) :: Terminate h ::
      match terminate_raises p with
      | Some _ => []
      | None =>
          WaitFor h 3 ::
          if timed_out p
          then [Print (ForceKillingSubprocess (pid p)); Kill h]
          else []
      end
  end.
Proof.
  unfold stop_process, timed_out. run_calls.
  destruct (returncode (procs s h)); simpl; [reflexivity|].
  destruct (terminate_raises (procs s h)); simpl; [reflexivity|].
  rewrite Nat.eqb_refl. simpl.
  destruct (wait_for (procs s h) 3) as [c|e]; simpl; [reflexivity|].
  destruct (isinstance_TimeoutError e); simpl; [|reflexivity].
  rewrite Nat.eqb_refl. simpl.
  destruct (kill_raises (procs s h)); reflexivity.
Qed.

Lemma stop_process_outcome (h : proc_id) (s : state) :
  let p := procs s h in
  outcome (stop_process h s) =
  match returncode p with
  | Some _ => Returned tt
  | None =>
      match terminate_raises p with
      | Some e => Raised e
      | None =>
          match wait_for p 3 with
          | WaitReturns _ => Returned tt
          | WaitRaises e =>
              if isinstance_TimeoutError e
              then match kill_raises p with
                   | Some e' => Raised e'
                   | None => Returned tt
                   end
              else Raised e
          end
      end
  end.
Proof.
  unfold stop_process. run_calls.
  destruct (returncode (procs s h)); simpl; [reflexivity|].
  destruct (terminate_raises (procs s h)); simpl; [reflexivity|].
  rewrite Nat.eqb_refl. simpl.
  destruct (wait_for (procs s h) 3) as [c|e]; simpl; [reflexivity|].
  destruct (isinstance_TimeoutError e); simpl; [|reflexivity].
  rewrite Nat.eqb_refl. simpl.
  destruct (kill_raises (procs s h)); reflexivity.
Qed.

Lemma stop_process_effect (h : proc_id) (s : state) :
  let p := procs s h in
  procs (final (stop_process h s)) h =
  match returncode p with
  | Some _ => p
  | None =>
      match terminate_raises p with
      | Some _ => p
      | None =>
          match wait_for p 3 with
          | WaitReturns c => set_returncode (deliver p SIGTERM) (Some c)
          | WaitRaises e =>
              if isinstance_TimeoutError e
              then match kill_raises p with
                   | Some _ => deliver p SIGTERM
                   | None => deliver (deliver p SIGTERM) SIGKILL
                   end
              else deliver p SIGTERM
          end
      end
  end.
Proof.
  unfold stop_process. run_calls.
  destruct (returncode (procs s h)); simpl; [reflexivity|].
  destruct (terminate_raises (procs s h)); simpl; [reflexivity|].
  rewrite Nat.eqb_refl. simpl.
  destruct (wait_for (procs s h) 3) as [c|e]; simpl.
  - rewrite Nat.eqb_refl. reflexivity.
  - destruct (isinstance_TimeoutError e); simpl.
    + rewrite Nat.eqb_refl. simpl.
      destruct (kill_raises (procs s h)); simpl; rewrite Nat.eqb_refl; reflexivity.
    + rewrite Nat.eqb_refl. reflexivity.
Qed.

(** ** Closing the streams of one subprocess *)

Lemma bind_gets {A B} (f : state -> A) (k : A -> M B) (s : state) :
  bind (gets f) k s = k (f s) s.
Proof.
  unfold bind, gets. destruct (k (f s) s) as [[r s2] t2]. reflexivity.
Qed.

Lemma close_streams_unroll (h : proc_id) (s : state) :
  close_streams h s =
  (close_slot h (stdout (procs s h)) Stdout ;;
   close_slot h (stderr (procs s h)) Stderr ;;
   close_slot h (stdin (procs s h)) Stdin ;;
   ret tt) s.
Proof. unfold close_streams. rewrite bind_gets. reflexivity. Qed.

Lemma close_slot_run (h : proc_id) (f : std_stream) (s : state) :
  close_slot h (get_stream (procs s h) f) f s =
  match get_stream (procs s h) f with
  | None => (Returned tt, s, [])
  | Some st =>
      (match close_raises st with
       | Some e => if isinstance_Exception e then Returned tt else Raised e
       | None => Returned tt
       end,
       match close_raises st with
       | Some _ => s
       | None => set_proc h (set_stream (procs s h) f (Some (after_close st))) s
       end,
       [Close h f])
  end.
Proof.
  unfold close_slot, after_close.
  destruct (get_stream (procs s h) f) as [st|] eqn:E; [|reflexivity].
  run_calls. rewrite E.
  destruct (close_raises st) as [e|] eqn:Ec; simpl; [|reflexivity].
  destruct (isinstance_Exception e); reflexivity.
Qed.

Lemma close_slot_step (h : proc_id) (f : std_stream) (s : state)
    (slot : option stream) :
  get_stream (procs s h) f = slot ->
  (forall st, slot = Some st -> swallowed st = true) ->
  let r := close_slot h slot f s in
  outcome r = Returned tt /\
  calls r = (if present (procs s h) f then [Close h f] else []) /\
  get_stream (procs (final r) h) f = option_map after_close slot /\
  (forall f', f' <> f ->
     get_stream (procs (final r) h) f' = get_stream (procs s h) f') /\
  returncode (procs (final r) h) = returncode (procs s h) /\
  signals (procs (final r) h) = signals (procs s h).
Proof.
  intros E Hsw r. subst r slot. rewrite close_slot_run. unfold present.
  destruct (get_stream (procs s h) f) as [st|] eqn:E;
    [|simpl; repeat apply conj; auto].
  specialize (Hsw st eq_refl). unfold swallowed in Hsw. unfold after_close.
  destruct (close_raises st) as [e|] eqn:Ec; unfold outcome, final, calls; simpl.
  - rewrite Hsw. repeat apply conj; auto.
    rewrite Ec. exact E.
  - rewrite Nat.eqb_refl. repeat apply conj; auto.
    + rewrite Ec. destruct f; reflexivity.
    + intros f' Hne. destruct f, f'; try reflexivity; congruence.
Qed.

Lemma std_stream_neq_1 : Stderr <> Stdout. Proof. discriminate. Qed.
Lemma std_stream_neq_2 : Stdin <> Stdout. Proof. discriminate. Qed.
Lemma std_stream_neq_3 : Stdin <> Stderr. Proof. discriminate. Qed.
Lemma std_stream_neq_4 : Stdout <> Stderr. Proof. discriminate. Qed.
Lemma std_stream_neq_5 : Stdout <> Stdin. Proof. discriminate. Qed.
Lemma std_stream_neq_6 : Stderr <> Stdin. Proof. discriminate. Qed.

Lemma close_streams_run (h : proc_id) (s : state) :
  (forall f st, get_stream (procs s h) f = Some st -> swallowed st = true) ->
  let r := close_streams h s in
  outcome r = Returned tt /\
  calls r = map (Close h) (filter (present (procs s h)) [Stdout; Stderr; Stdin]) /\
  (forall f, get_stream (procs (final r) h) f =
             option_map after_close (get_stream (procs s h) f)) /\
  returncode (procs (final r) h) = returncode (procs s h) /\
  signals (procs (final r) h) = signals (procs s h).
Proof.
  intros Hsw r. subst r. rewrite close_streams_unroll.
  destruct (close_slot_step h Stdout s (slot := stdout (procs s h)) eq_refl
              (Hsw Stdout)) as (O1 & C1 & G1 & F1 & R1 & S1).
  set (s1 := final (close_slot h (stdout (procs s h)) Stdout s)) in *.
  assert (E2 : get_stream (procs s1 h) Stderr = stderr (procs s h))
    by (apply F1, std_stream_neq_1).
  destruct (close_slot_step h Stderr s1 E2 (Hsw Stderr))
    as (O2 & C2 & G2 & F2 & R2 & S2).
  set (s2 := final (close_slot h (stderr (procs s h)) Stderr s1)) in *.
  assert (E3 : get_stream (procs s2 h) Stdin = stdin (procs s h)).
  { rewrite F2 by apply std_stream_neq_3. apply F1, std_stream_neq_2. }
  destruct (close_slot_step h Stdin s2 E3 (Hsw Stdin))
    as (O3 & C3 & G3 & F3 & R3 & S3).
  set (s3 := final (close_slot h (stdin (procs s h)) Stdin s2)) in *.
  rewrite (bind_step _ _ _ O1). fold s1.
  rewrite (bind_step _ _ _ O2). fold s2.
  rewrite (bind_step _ _ _ O3). fold s3.
  unfold outcome, final, calls; simpl.
  repeat apply conj.
  - reflexivity.
  - unfold calls in C1, C2, C3. rewrite C1, C2, C3.
    unfold present in *. rewrite E2, E3. simpl.
    destruct (stdout (procs s h)), (stderr (procs s h)), (stdin (procs s h));
      reflexivity.
  - intros [].
    + rewrite F3 by apply std_stream_neq_5.
      rewrite F2 by apply std_stream_neq_4. exact G1.
    + rewrite F3 by apply std_stream_neq_6. exact G2.
    + exact G3.
  - congruence.
  - congruence.
Qed.

Lemma close_slot_returned (h : proc_id) (f : std_stream) (s : state)
    (slot : option stream) :
  get_stream (procs s h) f = slot ->
  outcome (close_slot h slot f s) = Returned tt ->
  forall st, slot = Some st -> swallowed st = true.
Proof.
  intros E H st Est. subst slot. rewrite close_slot_run, Est in H.
  unfold swallowed. unfold outcome in H. simpl in H.
  destruct (close_raises st) as [e|]; [|reflexivity].
  destruct (isinstance_Exception e); [reflexivity|discriminate].
Qed.

Lemma close_streams_returned (h : proc_id) (s : state) :
  outcome (close_streams h s) = Returned tt ->
  forall f st, get_stream (procs s h) f = Some st -> swallowed st = true.
Proof.
  rewrite close_streams_unroll. intros H.
  apply bind_returned in H as ([] & O1 & H & _).
  pose proof (close_slot_returned h Stdout s (slot := stdout (procs s h)) eq_refl O1)
    as Sw1.
  destruct (close_slot_step h Stdout s (slot := stdout (procs s h)) eq_refl Sw1)
    as (_ & _ & _ & F1 & _).
  set (s1 := final (close_slot h (stdout (procs s h)) Stdout s)) in *.
  assert (E2 : get_stream (procs s1 h) Stderr = stderr (procs s h))
    by (apply F1, std_stream_neq_1).
  apply bind_returned in H as ([] & O2 & H & _).
  pose proof (close_slot_returned h Stderr s1 E2 O2) as Sw2.
  destruct (close_slot_step h Stderr s1 E2 Sw2) as (_ & _ & _ & F2 & _).
  set (s2 := final (close_slot h (stderr (procs s h)) Stderr s1)) in *.
  assert (E3 : get_stream (procs s2 h) Stdin = stdin (procs s h)).
  { rewrite F2 by apply std_stream_neq_3. apply F1, std_stream_neq_2. }
  apply bind_returned in H as ([] & O3 & _).
  pose proof (close_slot_returned h Stdin s2 E3 O3) as Sw3.
  intros [] st Hst; [apply Sw1 | apply Sw2 | apply Sw3]; exact Hst.
Qed.

(** ** What one turn of the drain leaves behind *)

Lemma stop_process_streams (h : proc_id) (s : state) (f : std_stream) :
  get_stream (procs (final (stop_process h s)) h) f = get_stream (procs s h) f.
Proof.
  rewrite stop_process_effect. cbv zeta.
  destruct (returncode (procs s h)); [reflexivity|].
  destruct (terminate_raises (procs s h)); [reflexivity|].
  destruct (wait_for (procs s h) 3) as [c|e]; [destruct f; reflexivity|].
  destruct (isinstance_TimeoutError e); [|destruct f; reflexivity].
  destruct (kill_raises (procs s h)); destruct f; reflexivity.
Qed.

Lemma drain_turn_others h : keeps (same_procs_but h) (drain_turn h).
Proof.
  unfold drain_turn. apply keeps_bind; [apply stop_process_others|].
  intros _. apply close_streams_others.
Qed.

Lemma drain_cons (h : proc_id) (rest : list proc_id) (s : state) :
  drain (h :: rest) s =
  bind (drain_turn h) (fun _ => drain rest) (set_running_subprocesses rest s).
Proof.
  simpl. unfold drain_turn. rewrite bind_assoc.
  unfold bind at 1. unfold modify. simpl.
  destruct ((stop_process h;; close_streams h;; drain rest)
              (set_running_subprocesses rest s)) as [[r s2] t2].
  reflexivity.
Qed.

Lemma drain_others (pending : list proc_id) (h : proc_id) :
  ~ In h pending ->
  forall s, procs (final (drain pending s)) h = procs s h.
Proof.
  induction pending as [|h' rest IH]; intros Hnot s; [reflexivity|].
  rewrite drain_cons, bind_run.
  set (s0 := set_running_subprocesses rest s).
  assert (Hne : h <> h') by (intros ->; apply Hnot; left; reflexivity).
  assert (Hrest : ~ In h rest) by (intros Hin; apply Hnot; right; exact Hin).
  pose proof (@drain_turn_others h' s0 h Hne) as K.
  destruct (outcome (drain_turn h' s0)) as [[]|e|]; unfold final at 1; simpl;
    try exact K.
  rewrite IH by exact Hrest. exact K.
Qed.

(** ** The calls made on one subprocess during a whole run *)

Lemma stop_process_on (h : proc_id) (s : state) :
  outcome (stop_process h s) = Returned tt ->
  filter (on_proc h) (calls (stop_process h s)) = stop_calls h (procs s h).
Proof.
  rewrite stop_process_outcome, stop_process_script. cbv zeta.
  unfold stop_calls, timed_out.
  destruct (returncode (procs s h)); [reflexivity|].
  destruct (terminate_raises (procs s h)); [discriminate|].
  simpl. rewrite Nat.eqb_refl.
  destruct (wait_for (procs s h) 3) as [c|e]; [reflexivity|].
  destruct (isinstance_TimeoutError e); [|discriminate].
  simpl. rewrite Nat.eqb_refl. reflexivity.
Qed.

Lemma close_calls_on (h : proc_id) (p : process) :
  filter (on_proc h) (close_calls h p) = close_calls h p.
Proof.
  unfold close_calls.
  induction (filter (present p) [Stdout; Stderr; Stdin]) as [|f fs IH]; simpl.
  - reflexivity.
  - rewrite Nat.eqb_refl, IH. reflexivity.
Qed.

Lemma present_after_stop (h : proc_id) (s : state) (f : std_stream) :
  present (procs (final (stop_process h s)) h) f = present (procs s h) f.
Proof. unfold present. rewrite stop_process_streams. reflexivity. Qed.

Lemma drain_turn_on (h : proc_id) (s : state) :
  outcome (drain_turn h s) = Returned tt ->
  filter (on_proc h) (calls (drain_turn h s)) =
  stop_calls h (procs s h) ++ close_calls h (procs s h).
Proof.
  unfold drain_turn. intros H.
  apply bind_returned in H as ([] & O1 & O2 & _ & C). rewrite C, filter_app.
  rewrite (stop_process_on h s O1). f_equal.
  set (s1 := final (stop_process h s)) in *.
  pose proof (close_streams_returned h s1 O2) as Hsw.
  destruct (close_streams_run h s1 Hsw) as (_ & Cc & _).
  rewrite Cc. fold (close_calls h (procs s1 h)). rewrite close_calls_on.
  unfold close_calls, s1. simpl.
  rewrite !present_after_stop. reflexivity.
Qed.

Lemma stop_process_only h : emits (fun e => forall h', h' <> h -> on_proc h' e = false)
                                  (stop_process h).
Proof.
  unfold stop_process. event_class; simpl; trivial;
    apply Nat.eqb_neq; congruence.
Qed.

Lemma close_streams_only h : emits (fun e => forall h', h' <> h -> on_proc h' e = false)
                                   (close_streams h).
Proof.
  unfold close_streams. event_class; simpl; trivial;
    apply Nat.eqb_neq; congruence.
Qed.

Lemma drain_turn_on_other (h h' : proc_id) (s : state) :
  h' <> h -> filter (on_proc h') (calls (drain_turn h s)) = [].
Proof.
  intros Hne. apply filter_none.
  assert (E : emits (fun e => forall h', h' <> h -> on_proc h' e = false)
                    (drain_turn h)).
  { unfold drain_turn. apply emits_bind; [apply stop_process_only|].
    intros _. apply close_streams_only. }
  eapply Forall_impl; [|apply E]. intros e He. apply He, Hne.
Qed.

Lemma drain_on_absent (pending : list proc_id) (h : proc_id) :
  ~ In h pending ->
  forall s, filter (on_proc h) (calls (drain pending s)) = [].
Proof.
  induction pending as [|h' rest IH]; intros Hnot s; [reflexivity|].
  rewrite drain_cons, bind_run.
  set (s0 := set_running_subprocesses rest s).
  assert (Hne : h <> h') by (intros ->; apply Hnot; left; reflexivity).
  assert (Hrest : ~ In h rest) by (intros Hin; apply Hnot; right; exact Hin).
  pose proof (drain_turn_on_other s0 Hne) as K.
  destruct (outcome (drain_turn h' s0)) as [[]|e|]; unfold calls at 1; simpl;
    try exact K.
  rewrite filter_app, IH by exact Hrest. rewrite app_nil_r. exact K.
Qed.

Lemma drain_on (pending : list proc_id) : forall s,
  NoDup pending ->
  outcome (drain pending s) = Returned tt ->
  forall h, In h pending ->
    filter (on_proc h) (calls (drain pending s)) =
    stop_calls h (procs s h) ++ close_calls h (procs s h).
Proof.
  induction pending as [|h' rest IH]; intros s Hnd H h Hin.
  - destruct Hin.
  - inversion Hnd as [|? ? Hnot Hnd']; subst.
    rewrite drain_cons in H |- *.
    apply bind_returned in H as ([] & O1 & O2 & _ & C). rewrite C, filter_app.
    set (s0 := set_running_subprocesses rest s) in *.
    destruct Hin as [->|Hin].
    + rewrite drain_on_absent by exact Hnot. rewrite app_nil_r.
      apply (drain_turn_on h s0 O1).
    + assert (Hne : h <> h') by (intros ->; contradiction).
      rewrite (drain_turn_on_other s0 Hne). simpl.
      pose proof (@drain_turn_others h' s0 h Hne) as K.
      change (procs s h) with (procs s0 h). rewrite <- K.
      apply IH; assumption.
Qed.

#[export] Instance same_processes_frame : Frame same_processes.
Proof.
  split; unfold same_processes; intros; auto.
  rewrite H0, H. reflexivity.
Qed.

Lemma pool_shutdown_processes : keeps same_processes pool_shutdown.
Proof. unfold pool_shutdown. frame; intro; reflexivity. Qed.

(** A returned run of [cleanup]: the drain started from the registry and
    the subprocess objects [cleanup] was called with, and its final state is
    that of the whole run. *)
Lemma cleanup_drain (s : state) :
  outcome (cleanup s) = Returned tt ->
  exists s1 pre post,
    running_subprocesses s1 = running_subprocesses s /\
    (forall h, procs s1 h = procs s h) /\
    outcome (drain (running_subprocesses s) s1) = Returned tt /\
    final (cleanup s) = final (drain (running_subprocesses s) s1) /\
    calls (cleanup s) = pre ++ calls (drain (running_subprocesses s) s1) ++ post /\
    (forall h, filter (on_proc h) pre = []) /\
    (forall h, filter (on_proc h) post = []).
Proof.
  intros H.
  destruct (cleanup_returned s H)
    as (s1 & s2 & results & H1 & H2 & _ & _ & _ & F & C).
  pose proof (pool_shutdown_registry s) as Hreg.
  pose proof (pool_shutdown_processes s) as Hprocs.
  rewrite H1 in Hreg, Hprocs. unfold same_registry, same_processes, final in *.
  simpl in Hreg, Hprocs.
  unfold terminate_subprocesses in H2. rewrite bind_gets, Hreg in H2.
  unfold terminate_subprocesses in C. rewrite bind_gets, Hreg in C.
  exists s1, (Print CleaningUp :: calls (pool_shutdown s)),
    (Sleep 0.1 :: calls (cancel_tasks s2) ++ calls (triage results s2) ++
     calls (kill_all_threads s2) ++ [Print CleanupCompleted]).
  repeat apply conj.
  - exact Hreg.
  - exact Hprocs.
  - rewrite H2. reflexivity.
  - rewrite H2. exact F.
  - rewrite C. reflexivity.
  - intros h. simpl. eapply filter_excluded; [|apply pool_shutdown_calls].
    other_stage.
  - intros h. simpl. rewrite !filter_app. simpl.
    assert (N4 : filter (on_proc h) (calls (cancel_tasks s2)) = []).
    { eapply filter_excluded; [|apply cancel_tasks_calls]. other_stage. }
    assert (N5 : filter (on_proc h) (calls (triage results s2)) = []).
    { eapply filter_excluded; [|apply triage_calls]. other_stage. }
    assert (N6 : filter (on_proc h) (calls (kill_all_threads s2)) = []).
    { eapply filter_excluded; [|apply kill_all_threads_calls]. other_stage. }
    rewrite N4, N5, N6. reflexivity.
Qed.

Lemma cleanup_on_proc (s : state) :
  NoDup (running_subprocesses s) ->
  outcome (cleanup s) = Returned tt ->
  forall h, In h (running_subprocesses s) ->
    filter (on_proc h) (calls (cleanup s)) =
    stop_calls h (procs s h) ++ close_calls h (procs s h).
Proof.
  intros Hnd H h Hin.
  destruct (cleanup_drain s H) as (s1 & pre & post & _ & Hp & Hd & _ & C & Npre & Npost).
  rewrite C, !filter_app, Npre, Npost, app_nil_r. simpl.
  rewrite (drain_on s1 Hnd Hd h Hin), Hp. reflexivity.
Qed.

(** ** C4: terminate, wait, escalate *)

(** C4, as stated, fails: a tracked subprocess with no exit status whose
    [terminate()] raises is never waited for; the exception leaves
    [cleanup()]. *)
Lemma terminate_then_wait_counterexample :
  returncode (Samples.reaped 7) = None /\
  In 0 (running_subprocesses (Samples.tracking (Samples.reaped 7))) /\
  calls (cleanup (Samples.tracking (Samples.reaped 7))) =
    [Print CleaningUp; Print (TerminatingSubprocess 7); Terminate 0] /\
  ~ In (WaitFor 0 3) (calls (cleanup (Samples.tracking (Samples.reaped 7)))) /\
  outcome (cleanup (Samples.tracking (Samples.reaped 7))) =
    Raised Samples.ProcessLookupError.
Proof.
  repeat apply conj; try reflexivity.
  - left. reflexivity.
  - simpl. intuition discriminate.
Qed.

(** C4 (amended). For the subprocess [h] popped from the registry: if its
    exit status is unset, [terminate()] is called and, when that call
    returns, the exit is awaited with a timeout of 3; [kill()] is called
    exactly when that wait raises a timeout, and nothing is awaited after
    it; if the exit status is set, no call is made on its signals at all.
    Closing the streams sends no signal.  In a run of [cleanup()] that
    returns, these are all the calls made on [h]. *)
Theorem termination_protocol (s : state) (h : proc_id) :
  let p := procs s h in
  calls (stop_process h s) =
    match returncode p with
    | Some _ => []
    | None =>
        Print (TerminatingSubprocess (pid p)) :: Terminate h ::
        match terminate_raises p with
        | Some _ => []
        | None =>
            WaitFor h 3 ::
            if timed_out p
            then [Print (ForceKillingSubprocess (pid p)); Kill h]
            else []
        end
    end /\
  signals (procs (final (stop_process h s)) h) =
    signals p ++
    match returncode p, terminate_raises p with
    | None, None =>
        SIGTERM ::
        (if timed_out p
         then match kill_raises p with None => [SIGKILL] | Some _ => [] end
         else [])
    | _, _ => []
    end /\
  (forall s', Forall (fun e => is_signal_call e = false)
                     (calls (close_streams h s'))) /\
  (NoDup (running_subprocesses s) ->
   outcome (cleanup s) = Returned tt ->
   In h (running_subprocesses s) ->
   filter (on_proc h) (calls (cleanup s)) = stop_calls h p ++ close_calls h p).
Proof.
  intros p. repeat apply conj.
  - apply stop_process_script.
  - rewrite stop_process_effect. cbv zeta. fold p. unfold timed_out.
    destruct (returncode p); [rewrite app_nil_r; reflexivity|].
    destruct (terminate_raises p); [rewrite app_nil_r; reflexivity|].
    destruct (wait_for p 3) as [c|e]; [reflexivity|].
    destruct (isinstance_TimeoutError e); [|reflexivity].
    destruct (kill_raises p); simpl; [reflexivity|].
    rewrite <- app_assoc. reflexivity.
  - intros s'. unfold close_streams. revert s'.
    change (emits (fun e => is_signal_call e = false)
              (p0 <- gets (fun s0 => procs s0 h);;
               for_each [Stdout; Stderr; Stdin]
                 (fun f => match get_stream p0 f with
                           | Some _ => try_except (stream_close h f)
                                         isinstance_Exception (ret tt)
                           | None => ret tt
                           end))).
    event_class; reflexivity.
  - intros Hnd H Hin. apply cleanup_on_proc; assumption.
Qed.

Lemma termination_protocol_witness :
  NoDup (running_subprocesses Samples.busy) /\
  filter (on_proc 1) (calls (cleanup Samples.busy)) =
    [Terminate 1; WaitFor 1 3; Kill 1; Close 1 Stdout; Close 1 Stderr].
Proof.
  assert (Hnd : NoDup (running_subprocesses Samples.busy)).
  { repeat constructor; simpl; intuition discriminate. }
  split; [exact Hnd|].
  destruct (termination_protocol Samples.busy 1) as (_ & _ & _ & H).
  rewrite (H Hnd eq_refl (or_intror (or_introl eq_refl))). reflexivity.
Defined.

(** ** C3: triage of the joined outcomes *)

Lemma triage_run (results : list pyobject) (s : state) :
  triage results s = (Returned tt, s, map report (filter reported results)).
Proof.
  unfold triage. induction results as [|r rest IH]; simpl; [reflexivity|].
  unfold bind at 1. destruct (reported r); simpl; rewrite IH; reflexivity.
Qed.

Lemma after_tasks_reports (results : list pyobject) (s : state) :
  filter from_triage (calls (after_tasks results s)) =
  map report (filter reported results).
Proof.
  unfold after_tasks. rewrite bind_run, triage_run.
  unfold outcome at 1, final, calls at 1 2. simpl.
  rewrite filter_app.
  assert (E : filter from_triage (map report (filter reported results)) =
              map report (filter reported results)).
  { induction (filter reported results) as [|r rs IH]; simpl; [reflexivity|].
    rewrite IH. reflexivity. }
  rewrite E.
  assert (N : emits (fun e => from_triage e = false)
                (kill_all_threads ;; console_print CleanupCompleted)).
  { event_class; try reflexivity.
    intro s'. eapply Forall_impl; [|apply kill_all_threads_calls]. other_stage. }
  fold (calls ((kill_all_threads;; console_print CleanupCompleted) s)).
  rewrite (filter_none _ (N s)). apply app_nil_r.
Qed.

Lemma before_tasks_no_report :
  emits (fun e => from_triage e = false) before_tasks.
Proof.
  unfold before_tasks. event_class; try reflexivity.
  - intro s. eapply Forall_impl; [|apply pool_shutdown_calls]. other_stage.
  - intro s. eapply Forall_impl; [|apply terminate_subprocesses_calls]. other_stage.
Qed.

(** C3, as stated, fails: a task that ended by raising [GeneratorExit],
    which is not a cancellation acknowledgement, is not reported. *)
Lemma triage_counterexample :
  let s := Samples.with_tasks [1] (fun _ => Some (Failed Samples.GeneratorExit)) in
  In 1 (other_tasks s) /\
  task_settles s 1 = Some (Failed Samples.GeneratorExit) /\
  isinstance_CancelledError Samples.GeneratorExit = false /\
  outcome (cleanup s) = Returned tt /\
  filter from_triage (calls (cleanup s)) = [].
Proof. repeat split. left. reflexivity. Qed.

(** C3 (amended). Triage goes through every joined outcome, never raises,
    and prints one error line, in order, for exactly the outcomes that are
    instances of [Exception] and not of [CancelledError]: a cancellation
    acknowledgement is never reported, every other [Exception] is, and an
    outcome outside [Exception] is not.  These are the only error lines of
    a run of [cleanup()], printed once the join has handed the outcomes
    back. *)
Theorem triage_reports (results : list pyobject) (s : state) :
  triage results s = (Returned tt, s, map report (filter reported results)) /\
  (forall e, isinstance_CancelledError e = true -> reported (Exc e) = false) /\
  (forall e, isinstance_Exception e = true ->
             isinstance_CancelledError e = false -> reported (Exc e) = true) /\
  (forall e, isinstance_Exception e = false -> reported (Exc e) = false) /\
  filter from_triage (calls (cleanup s)) =
    match outcome (before_tasks s), settle_all (task_settles s) (other_tasks s) with
    | Returned _, Some os =>
        match leaves_loop os with
        | None => map report (filter reported (map gathered os))
        | Some _ => []
        end
    | _, _ => []
    end.
Proof.
  split; [apply triage_run|].
  split; [intros e H; simpl; rewrite H; apply andb_false_r|].
  split; [intros e H1 H2; simpl; rewrite H1, H2; reflexivity|].
  split; [intros e H; simpl; rewrite H; reflexivity|].
  rewrite cleanup_split, bind_run.
  pose proof (before_tasks_no_report s) as Hpre.
  pose proof (before_tasks_surroundings s) as Hsur.
  destruct (outcome (before_tasks s)) as [[]|e|]; unfold calls at 1; simpl;
    try (apply filter_none; exact Hpre).
  set (s2 := final (before_tasks s)) in *.
  rewrite filter_app, (filter_none _ Hpre). simpl.
  rewrite bind_run, cancel_tasks_run. unfold outcome at 1, final, calls at 1 2.
  simpl.
  rewrite (other_tasks_surroundings Hsur).
  destruct Hsur as (_ & _ & Hset & _). rewrite Hset.
  assert (N : filter from_triage
                (Print (CancellingTasks (length (other_tasks s))) ::
                 map Cancel (other_tasks s) ++
                 [Sleep 0.1; Gather (other_tasks s) true]) = []).
  { simpl. rewrite filter_app. simpl. rewrite app_nil_r.
    induction (other_tasks s) as [|t ts IH]; simpl; trivial. }
  destruct (settle_all (task_settles s) (other_tasks s)) as [os|];
    [destruct (leaves_loop os)|]; simpl.
  - exact N.
  - change (filter from_triage
              ((Print (CancellingTasks (length (other_tasks s))) ::
                map Cancel (other_tasks s) ++
                [Sleep 0.1; Gather (other_tasks s) true]) ++
               calls (after_tasks (map gathered os) s2)) =
            map report (filter reported (map gathered os))).
    rewrite filter_app, N. simpl. apply after_tasks_reports.
  - exact N.
Qed.

(** Five live tasks besides the caller's: three acknowledge the
    cancellation, two raise something else. *)
Lemma triage_reports_witness :
  let ends := fun t : task_id =>
    match t with
    | 2 => Some (Failed (Samples.ValueError "boom"))
    | 4 => Some (Failed (Samples.ValueError "bang"))
    | _ => Some (Failed Samples.CancelledError)
    end in
  let s := Samples.with_tasks [1; 2; 3; 4; 5] ends in
  outcome (cleanup s) = Returned tt /\
  filter from_triage (calls (cleanup s)) =
    [Print (ErrorDuringCleanup "boom"); Print (ErrorDuringCleanup "bang")].
Proof.
  split; [reflexivity|].
  match goal with
  | |- filter from_triage (calls (cleanup ?s)) = _ =>
      destruct (triage_reports [] s) as (_ & _ & _ & _ & H)
  end.
  rewrite H. reflexivity.
Defined.

(** ** C10: the sweep over OS descendants *)



(** *** The list [wait_procs] hands back *)

Lemma insert_by_slot_perm (c : ps_process) (l : list ps_process) :
  Permutation (insert_by_slot c l) (c :: l).
Proof.
  induction l as [|d l IH]; simpl; [reflexivity|].
  destruct (Z.leb (ps_slot c) (ps_slot d)); [reflexivity|].
  rewrite IH. apply perm_swap.
Qed.

Lemma list_of_set_perm (l : list ps_process) : Permutation (list_of_set l) l.
Proof.
  induction l as [|c l IH]; simpl; [reflexivity|].
  rewrite insert_by_slot_perm. apply perm_skip, IH.
Qed.

Lemma distinct_in (c : ps_process) (l : list ps_process) :
  In c (distinct l) -> In c l.
Proof.
  induction l as [|d l IH]; simpl; [trivial|].
  intros [->|H]; [left; reflexivity|].
  right. apply IH. apply filter_In in H. apply H.
Qed.

Lemma distinct_pids (l : list ps_process) : NoDup (map ps_pid (distinct l)).
Proof.
  induction l as [|d l IH]; simpl; constructor.
  - rewrite in_map_iff. intros (c & E & H). apply filter_In in H as [_ H].
    rewrite E, Z.eqb_refl in H. discriminate.
  - clear -IH. induction (distinct l) as [|c cs IHc]; simpl; [constructor|].
    inversion IH as [|? ? Hnot Hnd]; subst.
    destruct (negb (ps_pid c =? ps_pid d)%Z); simpl; [|apply IHc, Hnd].
    constructor; [|apply IHc, Hnd].
    rewrite in_map_iff. intros (c' & E & H). apply filter_In in H as [H _].
    apply Hnot. rewrite in_map_iff. exists c'. auto.
Qed.

Lemma distinct_id (l : list ps_process) :
  NoDup (map ps_pid l) -> distinct l = l.
Proof.
  induction l as [|d l IH]; simpl; intros Hnd; [reflexivity|].
  inversion Hnd as [|? ? Hnot Hnd']; subst.
  rewrite (IH Hnd'). f_equal.
  clear -Hnot. induction l as [|c l IH]; simpl; [reflexivity|].
  simpl in Hnot.
  destruct (Z.eqb_spec (ps_pid c) (ps_pid d)) as [E|_]; simpl.
  - exfalso. apply Hnot. left. exact E.
  - f_equal. apply IH. intros H. apply Hnot. right. exact H.
Qed.

Lemma filter_pids (f : ps_process -> bool) (l : list ps_process) :
  NoDup (map ps_pid l) -> NoDup (map ps_pid (filter f l)).
Proof.
  induction l as [|c l IH]; simpl; intros Hnd; [constructor|].
  inversion Hnd as [|? ? Hnot Hnd']; subst.
  destruct (f c); simpl; [|apply IH, Hnd'].
  constructor; [|apply IH, Hnd'].
  rewrite in_map_iff. intros (c' & E & H). apply filter_In in H as [H _].
  apply Hnot. rewrite in_map_iff. exists c'. auto.
Qed.

Lemma still_alive_spec (s : state) :
  (forall c, In c (still_alive s) ->
             In c (ps_children s true) /\ ps_alive_after c 3 = true) /\
  NoDup (map ps_pid (still_alive s)) /\
  (NoDup (map ps_pid (ps_children s true)) ->
   Permutation (still_alive s)
     (filter (fun c => ps_alive_after c 3) (ps_children s true))).
Proof.
  unfold still_alive. repeat apply conj.
  - intros c H.
    apply (Permutation_in _ (list_of_set_perm _)) in H.
    apply filter_In in H as [H1 H2]. split; [apply distinct_in, H1 | exact H2].
  - eapply Permutation_NoDup.
    + apply Permutation_map. symmetry. apply list_of_set_perm.
    + apply filter_pids, distinct_pids.
  - intros Hnd. rewrite (distinct_id _ Hnd). apply list_of_set_perm.
Qed.

(** *** The run of the sweep *)













(** ** C7: where [cleanup] can stay suspended *)

Lemma never_blocks_answer {A} (r : result A) :
  r <> Blocked -> never_blocks (answer r).
Proof. intros H s. exact H. Qed.

Lemma never_blocks_ret {A} (a : A) : never_blocks (ret a).
Proof. intro s. discriminate. Qed.

Lemma never_blocks_gets {A} (f : state -> A) : never_blocks (gets f).
Proof. intro s. discriminate. Qed.

Lemma never_blocks_modify f : never_blocks (modify f).
Proof. intro s. discriminate. Qed.

Lemma never_blocks_emit e : never_blocks (emit e).
Proof. intro s. discriminate. Qed.

Lemma never_blocks_raise {A} e : never_blocks (@raise A e).
Proof. intro s. discriminate. Qed.

Lemma never_blocks_bind {A B} (m : M A) (k : A -> M B) :
  never_blocks m -> (forall a, never_blocks (k a)) -> never_blocks (bind m k).
Proof.
  intros Hm Hk s. rewrite bind_run. specialize (Hm s).
  destruct (outcome (m s)) as [a|e|]; unfold outcome at 1; simpl.
  - apply Hk.
  - discriminate.
  - exfalso. apply Hm. reflexivity.
Qed.

Lemma never_blocks_try_except {A} (body : M A) catches (handler : M A) :
  never_blocks body -> never_blocks handler ->
  never_blocks (try_except body catches handler).
Proof.
  intros Hb Hh s. rewrite try_except_run. specialize (Hb s).
  destruct (outcome (body s)) as [a|e|]; unfold outcome at 1; simpl.
  - discriminate.
  - destruct (catches e); simpl; [apply Hh | discriminate].
  - exact Hb.
Qed.

Lemma never_blocks_for_each {A} (xs : list A) (body : A -> M unit) :
  (forall x, never_blocks (body x)) -> never_blocks (for_each xs body).
Proof.
  intros Hb. induction xs as [|x xs IH]; simpl.
  - apply never_blocks_ret.
  - apply never_blocks_bind; auto.
Qed.

Ltac blocks_step :=
  match goal with
  | |- forall _, _ => intro
  | |- never_blocks (bind _ _) => apply never_blocks_bind
  | |- never_blocks (ret _) => apply never_blocks_ret
  | |- never_blocks (gets _) => apply never_blocks_gets
  | |- never_blocks (modify _) => apply never_blocks_modify
  | |- never_blocks (emit _) => apply never_blocks_emit
  | |- never_blocks (raise _) => apply never_blocks_raise
  | |- never_blocks (try_except _ _ _) => apply never_blocks_try_except
  | |- never_blocks (for_each _ _) => apply never_blocks_for_each
  | |- never_blocks (match ?x with _ => _ end) => destruct x
  end.

Ltac no_block := unfold_calls; repeat blocks_step.

Lemma drain_never_blocks pending : never_blocks (drain pending).
Proof.
  induction pending as [|h rest IH]; simpl.
  - apply never_blocks_ret.
  - unfold stop_process, close_streams. no_block. exact IH.
Qed.

Lemma terminate_subprocesses_never_blocks : never_blocks terminate_subprocesses.
Proof. unfold terminate_subprocesses. no_block. apply drain_never_blocks. Qed.

Lemma after_tasks_never_blocks results : never_blocks (after_tasks results).
Proof. unfold after_tasks, triage, kill_all_threads. no_block. Qed.

Lemma settle_all_none (settles : task_id -> option task_outcome) (ts : list task_id) :
  settle_all settles ts = None <-> exists t, In t ts /\ settles t = None.
Proof.
  induction ts as [|t ts IH]; simpl.
  - split; [discriminate|]. intros (t & [] & _).
  - destruct (settles t) as [o|] eqn:Et.
    + destruct (settle_all settles ts) as [os|].
      * split; [discriminate|]. intros (t' & [<-|Hin] & Hn); [congruence|].
        assert (C : Some os = None) by (apply IH; exists t'; auto).
        discriminate C.
      * split; [|reflexivity]. intros _.
        destruct (proj1 IH eq_refl) as (t' & Hin & Hn). exists t'. auto.
    + split; [|reflexivity]. intros _. exists t. auto.
Qed.

Lemma before_tasks_blocked (s : state) :
  outcome (before_tasks s) = Blocked ->
  exists ex, thread_executor s = Some ex /\ shutdown ex true = Blocked.
Proof.
  unfold before_tasks. rewrite bind_run.
  unfold outcome at 2, console_print, emit. simpl.
  unfold outcome at 1, final at 1 2. simpl.
  assert (Hrest : never_blocks (terminate_subprocesses ;; asyncio_sleep 0.1)).
  { apply never_blocks_bind; [apply terminate_subprocesses_never_blocks|].
    intros _. unfold asyncio_sleep. apply never_blocks_emit. }
  rewrite bind_run.
  destruct (thread_executor s) as [ex|] eqn:Hex.
  - rewrite (pool_shutdown_present s Hex). unfold outcome at 2. simpl.
    destruct (shutdown ex true) as [[]|e|] eqn:Hsh; unfold outcome at 1; simpl.
    + intros H. exfalso. eapply Hrest. exact H.
    + discriminate.
    + intros _. exists ex. auto.
  - rewrite (pool_shutdown_absent s Hex). unfold outcome at 2. simpl.
    unfold outcome at 1. simpl.
    intros H. exfalso. eapply Hrest. exact H.
Qed.

Lemma pool_shutdown_bounded : emits bounded_await pool_shutdown.
Proof. unfold pool_shutdown. event_class; exact I. Qed.

Lemma drain_bounded pending : emits bounded_await (drain pending).
Proof.
  induction pending as [|h rest IH]; simpl.
  - apply emits_ret.
  - unfold stop_process, close_streams. event_class;
      try exact I; try reflexivity. exact IH.
Qed.

Lemma cleanup_bounded : emits bounded_await cleanup.
Proof.
  unfold cleanup, terminate_subprocesses, cancel_tasks, triage, kill_all_threads.
  event_class; try exact I; try reflexivity.
  - apply pool_shutdown_bounded.
  - apply drain_bounded.
Qed.

Lemma filter_nil_not_in {A} (f : A -> bool) (l : list A) (x : A) :
  filter f l = [] -> In x l -> f x = true -> False.
Proof.
  intros Hf Hin Hx.
  assert (Hin' : In x (filter f l)) by (apply filter_In; auto).
  rewrite Hf in Hin'. destruct Hin'.
Qed.

(** C7, as stated, fails: the final join carries no timeout, and one task
    that never finishes keeps [cleanup()] suspended in it for ever. *)
Lemma suspension_counterexample :
  let s := Samples.with_tasks [1] (fun _ => None) in
  calls (cleanup s) =
    [Print CleaningUp; Sleep 0.1; Print (CancellingTasks 1); Cancel 1;
     Sleep 0.1; Gather [1] true] /\
  is_await (Gather [1] true) = true /\
  timeout_of (Gather [1] true) = None /\
  outcome (cleanup s) = Blocked.
Proof. repeat split. Qed.

(** C7 (amended). The wait for a subprocess to exit carries a timeout of 3
    and the two sleeps last 0.1; the only awaited call of [cleanup()]
    without a bound is the final join.  [cleanup()] can stay suspended for
    ever only there, and does so exactly when it reaches the join while
    some cancelled task never finishes (the synchronous pool shutdown, which
    is not awaited, is the one other place where it can stay). *)
Theorem suspension_points (s : state) :
  Forall bounded_await (calls (cleanup s)) /\
  (forall e, In e (calls (cleanup s)) -> is_await e = true ->
             timeout_of e = None -> e = Gather (other_tasks s) true) /\
  (outcome (cleanup s) = Blocked ->
   (exists ex, thread_executor s = Some ex /\ shutdown ex true = Blocked) \/
   ((exists t, In t (other_tasks s) /\ task_settles s t = None) /\
    exists pre, calls (cleanup s) = pre ++ [Gather (other_tasks s) true])) /\
  (outcome (before_tasks s) = Returned tt ->
   (exists t, In t (other_tasks s) /\ task_settles s t = None) ->
   outcome (cleanup s) = Blocked).
Proof.
  split; [apply cleanup_bounded|]. split; [|split].
  - intros e Hin Haw Hto.
    assert (Htc : is_task_call e = true)
      by (destruct e; simpl in *; try discriminate; reflexivity).
    destruct (cleanup_task_calls s) as [C Npre].
    destruct (outcome (before_tasks s)) as [[]|e'|].
    + destruct C as (post & C & Npost).
      rewrite C in Hin. apply in_app_or in Hin as [Hin|Hin].
      * exfalso. exact (@filter_nil_not_in _ _ _ _ Npre Hin Htc).
      * destruct Hin as [<-|Hin]; [discriminate|].
        rewrite !in_app_iff in Hin. destruct Hin as [Hin|[Hin|Hin]].
        -- apply in_map_iff in Hin as (t & <- & _). discriminate.
        -- destruct Hin as [<-|[<-|[]]]; [discriminate|reflexivity].
        -- exfalso. exact (@filter_nil_not_in _ _ _ _ Npost Hin Htc).
    + rewrite C in Hin. exfalso. exact (@filter_nil_not_in _ _ _ _ Npre Hin Htc).
    + rewrite C in Hin. exfalso. exact (@filter_nil_not_in _ _ _ _ Npre Hin Htc).
  - rewrite cleanup_split, bind_run.
    pose proof (before_tasks_surroundings s) as Hsur.
    destruct (outcome (before_tasks s)) as [[]|e|] eqn:Ob;
      unfold outcome at 1, calls at 1; simpl.
    + set (s2 := final (before_tasks s)) in *.
      rewrite bind_run, cancel_tasks_run. unfold outcome at 2, final, calls at 2.
      simpl. rewrite (other_tasks_surroundings Hsur).
      destruct Hsur as (_ & _ & Hset & _). rewrite Hset.
      destruct (settle_all (task_settles s) (other_tasks s)) as [os|] eqn:Hs;
        [destruct (leaves_loop os)|]; unfold outcome at 1; simpl.
      * discriminate.
      * intros H. exfalso. eapply after_tasks_never_blocks. exact H.
      * intros _. right. split; [apply settle_all_none; exact Hs|].
        exists (calls (before_tasks s) ++
                Print (CancellingTasks (length (other_tasks s))) ::
                map Cancel (other_tasks s) ++ [Sleep 0.1]).
        unfold calls. rewrite <- !app_assoc. simpl. rewrite <- !app_assoc.
        reflexivity.
    + discriminate.
    + intros _. left. apply before_tasks_blocked. exact Ob.
  - intros Ob Hex. rewrite cleanup_split, bind_run, Ob.
    pose proof (before_tasks_surroundings s) as Hsur.
    unfold outcome at 1. simpl.
    rewrite bind_run, cancel_tasks_run. unfold outcome at 2. simpl.
    rewrite (other_tasks_surroundings Hsur).
    destruct Hsur as (_ & _ & Hset & _). rewrite Hset.
    apply settle_all_none in Hex. rewrite Hex. reflexivity.
Qed.

Lemma suspension_points_witness :
  outcome (cleanup (Samples.with_tasks [1; 2]
                      (fun t => match t with 2 => None | _ => Some (Failed Samples.CancelledError) end)))
  = Blocked.
Proof.
  apply suspension_points.
  - reflexivity.
  - exists 2. split; [right; left; reflexivity | reflexivity].
Defined.

(** ** C1: which failures [cleanup] absorbs *)

Lemma drain_turn_run (h : proc_id) (s : state) :
  obedient (procs s h) ->
  outcome (drain_turn h s) = Returned tt /\
  calls (drain_turn h s) = turn_script h (procs s h).
Proof.
  intros [Hsig Hsw]. unfold drain_turn. unfold stop_returns in Hsig.
  assert (O1 : outcome (stop_process h s) = Returned tt).
  { rewrite stop_process_outcome. cbv zeta.
    destruct (returncode (procs s h)); [reflexivity|].
    destruct (Hsig eq_refl) as [Ht Hw]. rewrite Ht.
    destruct (wait_for (procs s h) 3) as [c|e]; [reflexivity|].
    destruct Hw as [Hto Hk]. rewrite Hto, Hk. reflexivity. }
  assert (C1 : calls (stop_process h s) = stop_script h (procs s h)).
  { rewrite stop_process_script. cbv zeta. unfold stop_script.
    destruct (returncode (procs s h)); [reflexivity|].
    destruct (Hsig eq_refl) as [Ht _]. rewrite Ht. reflexivity. }
  rewrite outcome_bind, calls_bind, O1, C1.
  set (s1 := final (stop_process h s)).
  assert (Hsw1 : forall f st, get_stream (procs s1 h) f = Some st ->
                              swallowed st = true).
  { intros f st. unfold s1. rewrite stop_process_streams. apply Hsw. }
  destruct (close_streams_run h s1 Hsw1) as (O2 & C2 & _).
  split; [exact O2|].
  unfold turn_script. f_equal. rewrite C2. unfold close_calls, s1. simpl.
  rewrite !present_after_stop. reflexivity.
Qed.










(** ** The scenarios of the specification *)

(** The registry holds two processes; one exits within 1 time unit of the
    terminate signal, the other never responds: one kill call, an empty
    registry, every stream of both closed. *)
Example scenario_two_processes :
  let r := cleanup Samples.busy in
  outcome r = Returned tt /\
  filter (fun e => match e with Kill _ => true | _ => false end) (calls r) = [Kill 1] /\
  running_subprocesses (final r) = [] /\
  map (fun f => option_map closed (get_stream (procs (final r) 0) f))
      [Stdout; Stderr; Stdin] = [Some true; Some true; Some true] /\
  map (fun f => option_map closed (get_stream (procs (final r) 1) f))
      [Stdout; Stderr; Stdin] = [Some true; Some true; None].
Proof. repeat split. Qed.

(** No pool handle set: the pool stage makes no call and nothing fails. *)
Example scenario_no_pool :
  thread_executor Samples.idle = None /\
  pool_shutdown Samples.idle = (Returned tt, Samples.idle, []) /\
  outcome (cleanup Samples.idle) = Returned tt /\
  calls (cleanup Samples.idle) =
    [Print CleaningUp; Sleep 0.1; Print (CancellingTasks 0); Sleep 0.1;
     Gather [] true; Print CheckingThreads; Children true; WaitProcs [] 3;
     Enumerate; Enumerate; Print (RemainingThreads 1);
     Print (ThreadLine "MainThread" true); Print ThreadCleanupCompleted;
     Print CleanupCompleted].
Proof. repeat split. Qed.

(** The text of the messages, as the source formats them. *)
Example scenario_messages :
  render (TerminatingSubprocess 4242) =
    "[yellow]Terminating subprocess 4242...[/yellow]"%string /\
  render (CancellingTasks 12) =
    "[yellow]Cancelling 12 remaining tasks...[/yellow]"%string /\
  render (ThreadLine "MainThread" true) = "  - MainThread (Alive: True)"%string.
Proof. repeat split. Qed.

(** ** The phases of a run, whatever its outcome *)

Lemma cleanup_phases (s : state) :
  cleanup s =
  bind prelude
    (fun _ => bind terminate_subprocesses
       (fun _ => bind join_part (fun _ => finish))) s.
Proof.
  unfold cleanup, prelude, join_part, finish.
  rewrite !bind_assoc. apply bind_ext. intros [] s1.
  apply bind_ext. intros [] s2.
  apply bind_ext. intros [] s3.
  rewrite !bind_assoc. apply bind_ext. intros [] s4.
  rewrite !bind_assoc. reflexivity.
Qed.

Lemma prelude_calls : emits (fun e => from_prelude e = true) prelude.
Proof.
  unfold prelude. event_class; try reflexivity.
  intro s. eapply Forall_impl; [|apply pool_shutdown_calls].
  intros e He. unfold from_prelude. rewrite He. apply orb_true_r.
Qed.

Lemma join_part_calls : emits (fun e => from_join e = true) join_part.
Proof.
  unfold join_part. event_class; try reflexivity.
  - intro s. eapply Forall_impl; [|apply cancel_tasks_calls].
    intros e He. unfold from_join. rewrite He. reflexivity.
  - intro s. eapply Forall_impl; [|apply triage_calls].
    intros e He. unfold from_join. rewrite He. apply orb_true_r.
Qed.

Lemma finish_calls : emits (fun e => from_finish e = true) finish.
Proof.
  unfold finish. event_class; try reflexivity.
  intro s. eapply Forall_impl; [|apply kill_all_threads_calls].
  intros e He. unfold from_finish. rewrite He. reflexivity.
Qed.

Lemma join_part_pure : keeps same_state join_part.
Proof. unfold join_part, cancel_tasks, triage. frame. Qed.

Lemma finish_pure : keeps same_state finish.
Proof. unfold finish, kill_all_threads. frame. Qed.

Lemma Forall_match_calls {A} (P : event -> Prop) (r : result A) (f : A -> trace) :
  (forall a, Forall P (f a)) ->
  Forall P (match r with Returned a => f a | _ => [] end).
Proof. intros H. destruct r; auto. Qed.

(** X1. The calls of a run come in four consecutive blocks: the banner and
    the pool stage, the drain of the registry, the settle sleep with the
    cancellation, the join and the error lines, and the sweep with the
    closing line.  A stage makes no call before the calls of the stages
    before it are over, and this holds for runs that raise or block too. *)
Theorem stages_in_order (s : state) :
  exists pool drained joined swept,
    calls (cleanup s) = pool ++ drained ++ joined ++ swept /\
    Forall (fun e => from_prelude e = true) pool /\
    Forall (fun e => from_drain e = true) drained /\
    Forall (fun e => from_join e = true) joined /\
    Forall (fun e => from_finish e = true) swept /\
    forall e, length (filter (fun cls => cls e)
                        [from_prelude; from_drain; from_join; from_finish]) <= 1.
Proof.
  rewrite cleanup_phases, calls_bind.
  eexists (calls (prelude s)), _, _, _.
  split; [f_equal|].
  - instantiate
      (3 := match outcome (prelude s) with
            | Returned _ => calls (terminate_subprocesses (final (prelude s)))
            | _ => []
            end).
    instantiate
      (2 := match outcome (prelude s) with
            | Returned _ =>
                match outcome (terminate_subprocesses (final (prelude s))) with
                | Returned _ =>
                    calls (join_part
                             (final (terminate_subprocesses (final (prelude s)))))
                | _ => []
                end
            | _ => []
            end).
    instantiate
      (1 := match outcome (prelude s) with
            | Returned _ =>
                match outcome (terminate_subprocesses (final (prelude s))) with
                | Returned _ =>
                    match outcome (join_part
                             (final (terminate_subprocesses (final (prelude s))))) with
                    | Returned _ =>
                        calls (finish (final (join_part
                          (final (terminate_subprocesses (final (prelude s)))))))
                    | _ => []
                    end
                | _ => []
                end
            | _ => []
            end).
    destruct (outcome (prelude s)); [|reflexivity|reflexivity].
    rewrite calls_bind. f_equal.
    destruct (outcome (terminate_subprocesses (final (prelude s))));
      [|reflexivity|reflexivity].
    rewrite calls_bind. f_equal.
  - repeat apply conj.
    + apply prelude_calls.
    + apply Forall_match_calls. intros _. apply terminate_subprocesses_calls.
    + apply Forall_match_calls. intros _.
      apply Forall_match_calls. intros _. apply join_part_calls.
    + apply Forall_match_calls. intros _.
      apply Forall_match_calls. intros _.
      apply Forall_match_calls. intros _. apply finish_calls.
    + intros e. destruct e as [[]| | | | | | | | | | | | |]; simpl; lia.
Qed.

(** ** The drain, whatever its outcome *)

Lemma drain_turn_registry h : keeps same_registry (drain_turn h).
Proof.
  unfold drain_turn. apply keeps_bind; [apply stop_process_registry|].
  intros _. apply close_streams_registry.
Qed.

(** The registry a drain leaves is what it had not popped yet; the
    subprocesses still in it have not been touched. *)
Lemma drain_leaves (pending : list proc_id) : forall s,
  running_subprocesses s = pending ->
  exists popped,
    pending = popped ++ running_subprocesses (final (drain pending s)) /\
    (outcome (drain pending s) = Returned tt ->
     running_subprocesses (final (drain pending s)) = []) /\
    (NoDup pending ->
     forall h, In h (running_subprocesses (final (drain pending s))) ->
       procs (final (drain pending s)) h = procs s h /\
       filter (on_proc h) (calls (drain pending s)) = []).
Proof.
  induction pending as [|h rest IH]; intros s Hreg.
  - exists []. change (final (drain [] s)) with s. rewrite Hreg.
    split; [reflexivity|]. split; [reflexivity|]. intros _ h [].
  - rewrite drain_cons.
    set (s0 := set_running_subprocesses rest s).
    pose proof (drain_turn_registry h s0) as Hkeep. unfold same_registry in Hkeep.
    change (running_subprocesses s0) with rest in Hkeep.
    rewrite final_bind, calls_bind, (bind_run (drain_turn h)).
    destruct (outcome (drain_turn h s0)) as [[]|e|] eqn:O1.
    + destruct (IH (final (drain_turn h s0)) Hkeep) as (popped & Hp & Hret & Hun).
      exists (h :: popped). unfold outcome at 1. simpl.
      split; [f_equal; exact Hp|]. split; [exact Hret|].
      intros Hnd h' Hin. apply NoDup_cons_iff in Hnd as [Hnot Hnd'].
      assert (Hrest : In h' rest).
      { rewrite Hp. apply in_or_app. right. exact Hin. }
      assert (Hne : h' <> h) by (intros ->; contradiction).
      destruct (Hun Hnd' h' Hin) as [Hpr Hca].
      split.
      * rewrite Hpr. apply (@drain_turn_others h s0 h' Hne).
      * rewrite filter_app, Hca, app_nil_r.
        apply (drain_turn_on_other s0 Hne).
    + exists [h]. unfold outcome at 1. simpl. rewrite Hkeep, app_nil_r.
      split; [reflexivity|]. split; [discriminate|].
      intros Hnd h' Hin. apply NoDup_cons_iff in Hnd as [Hnot Hnd'].
      assert (Hne : h' <> h) by (intros ->; contradiction).
      split; [apply (@drain_turn_others h s0 h' Hne)|].
      apply (drain_turn_on_other s0 Hne).
    + exists [h]. unfold outcome at 1. simpl. rewrite Hkeep, app_nil_r.
      split; [reflexivity|]. split; [discriminate|].
      intros Hnd h' Hin. apply NoDup_cons_iff in Hnd as [Hnot Hnd'].
      assert (Hne : h' <> h) by (intros ->; contradiction).
      split; [apply (@drain_turn_others h s0 h' Hne)|].
      apply (drain_turn_on_other s0 Hne).
Qed.

Lemma prelude_registry : keeps same_registry prelude.
Proof.
  unfold prelude. apply keeps_bind; [unfold console_print; apply keeps_emit|].
  intros _. apply pool_shutdown_registry.
Qed.

Lemma prelude_processes : keeps same_processes prelude.
Proof.
  unfold prelude. apply keeps_bind; [unfold console_print; apply keeps_emit|].
  intros _. apply pool_shutdown_processes.
Qed.

Lemma prelude_quiet (s : state) (h : proc_id) :
  filter (on_proc h) (calls (prelude s)) = [].
Proof.
  eapply filter_excluded; [|apply prelude_calls].
  unfold from_prelude, from_join, from_finish.
  intros e. destruct e as [[]| | | | | | | | | | | | |]; simpl;
    intros; congruence.
Qed.

Lemma join_part_quiet (s : state) (h : proc_id) :
  filter (on_proc h) (calls (join_part s)) = [].
Proof.
  eapply filter_excluded; [|apply join_part_calls].
  unfold from_prelude, from_join, from_finish.
  intros e. destruct e as [[]| | | | | | | | | | | | |]; simpl;
    intros; congruence.
Qed.

Lemma finish_quiet (s : state) (h : proc_id) :
  filter (on_proc h) (calls (finish s)) = [].
Proof.
  eapply filter_excluded; [|apply finish_calls].
  unfold from_prelude, from_join, from_finish.
  intros e. destruct e as [[]| | | | | | | | | | | | |]; simpl;
    intros; congruence.
Qed.

(** A run of [cleanup] around its drain: either the drain is never reached,
    or the run ends in the state the drain leaves and its calls on
    subprocesses are those of the drain. *)
Lemma cleanup_core (s : state) :
  exists s1,
    running_subprocesses s1 = running_subprocesses s /\
    (forall h, procs s1 h = procs s h) /\
    ((final (cleanup s) = s1 /\
      forall h, filter (on_proc h) (calls (cleanup s)) = []) \/
     (final (cleanup s) = final (drain (running_subprocesses s) s1) /\
      outcome (prelude s) = Returned tt /\
      (outcome (cleanup s) = Returned tt ->
       outcome (drain (running_subprocesses s) s1) = Returned tt) /\
      forall h, filter (on_proc h) (calls (cleanup s)) =
                filter (on_proc h) (calls (drain (running_subprocesses s) s1)))).
Proof.
  exists (final (prelude s)).
  pose proof (prelude_registry s) as Hreg.
  pose proof (prelude_processes s) as Hpr.
  unfold same_registry, same_processes in Hreg, Hpr.
  split; [exact Hreg|]. split; [exact Hpr|].
  set (s1 := final (prelude s)) in *.
  assert (Hts : terminate_subprocesses s1 = drain (running_subprocesses s) s1).
  { unfold terminate_subprocesses. rewrite bind_gets, Hreg. reflexivity. }
  set (rest := fun _ : unit => bind join_part (fun _ => finish)).
  assert (Hrest_pure : forall s', final (rest tt s') = s').
  { intros s'. unfold rest. rewrite final_bind, join_part_pure.
    destruct (outcome (join_part s')); try reflexivity. apply finish_pure. }
  assert (Hrest_quiet : forall h s', filter (on_proc h) (calls (rest tt s')) = []).
  { intros h s'. unfold rest. rewrite calls_bind, filter_app, join_part_quiet.
    destruct (outcome (join_part s')); simpl; rewrite ?finish_quiet; reflexivity. }
  pose proof (final_bind prelude (fun _ => bind terminate_subprocesses rest) s) as F.
  pose proof (outcome_bind prelude (fun _ => bind terminate_subprocesses rest) s) as O.
  pose proof (calls_bind prelude (fun _ => bind terminate_subprocesses rest) s) as C.
  rewrite cleanup_phases. fold rest. fold s1 in F, O, C.
  destruct (outcome (prelude s)) as [[]|e|] eqn:O0.
  - right.
    rewrite (final_bind terminate_subprocesses rest s1) in F.
    rewrite (outcome_bind terminate_subprocesses rest s1) in O.
    rewrite (calls_bind terminate_subprocesses rest s1) in C.
    rewrite Hts in F, O, C.
    repeat apply conj.
    + rewrite F.
      destruct (outcome (drain (running_subprocesses s) s1)) as [[]|e|];
        try reflexivity. apply Hrest_pure.
    + reflexivity.
    + rewrite O.
      destruct (outcome (drain (running_subprocesses s) s1)) as [[]|e|];
        trivial; discriminate.
    + intros h. rewrite C, !filter_app, prelude_quiet. simpl.
      destruct (outcome (drain (running_subprocesses s) s1)) as [[]|e|];
        rewrite ?Hrest_quiet, ?app_nil_r; reflexivity.
  - left. split; [exact F|]. intros h.
    rewrite C, app_nil_r. apply prelude_quiet.
  - left. split; [exact F|]. intros h.
    rewrite C, app_nil_r. apply prelude_quiet.
Qed.

(** X3. Whatever the outcome of [cleanup()], the registry it leaves is
    what the drain had not popped yet, in pop order; the subprocesses still
    registered have received no call and are in the state they were in. *)
Theorem registry_after_failure (s : state) :
  NoDup (running_subprocesses s) ->
  exists popped,
    running_subprocesses s = popped ++ running_subprocesses (final (cleanup s)) /\
    forall h, In h (running_subprocesses (final (cleanup s))) ->
      procs (final (cleanup s)) h = procs s h /\
      filter (on_proc h) (calls (cleanup s)) = [].
Proof.
  intros Hnd.
  destruct (cleanup_core s) as (s1 & Hreg & Hpr & [[F Q]|(F & _ & _ & Q)]).
  - exists []. rewrite F, Hreg. split; [reflexivity|].
    intros h _. split; [apply Hpr | apply Q].
  - destruct (drain_leaves s1 Hreg) as (popped & Hp & _ & Hun).
    exists popped. rewrite F. split; [exact Hp|].
    intros h Hin. destruct (Hun Hnd h Hin) as [H1 H2].
    split; [rewrite H1; apply Hpr | rewrite Q; exact H2].
Qed.

Lemma registry_after_failure_witness :
  outcome (cleanup Samples.failing) = Raised Samples.ProcessLookupError /\
  running_subprocesses (final (cleanup Samples.failing)) = [2] /\
  procs (final (cleanup Samples.failing)) 2 = procs Samples.failing 2 /\
  filter (on_proc 2) (calls (cleanup Samples.failing)) = [].
Proof.
  split; [reflexivity|]. split; [reflexivity|].
  assert (Hnd : NoDup (running_subprocesses Samples.failing)).
  { repeat constructor; simpl; intuition discriminate. }
  destruct (registry_after_failure Samples.failing Hnd) as (popped & _ & H).
  apply (H 2). left. reflexivity.
Defined.

(** X4. Whatever the outcome of the run, [cleanup()] calls no method of a
    subprocess handle that is not in the registry, nor of its streams, and
    leaves the handle object as it is.  (The sweep goes by the process
    tree, not by the handles: it may still signal the process through
    psutil.) *)
Theorem unregistered_untouched (s : state) (h : proc_id) :
  ~ In h (running_subprocesses s) ->
  filter (on_proc h) (calls (cleanup s)) = [] /\
  procs (final (cleanup s)) h = procs s h.
Proof.
  intros Hnot.
  destruct (cleanup_core s) as (s1 & Hreg & Hpr & [[F Q]|(F & _ & _ & Q)]).
  - split; [apply Q|]. rewrite F. apply Hpr.
  - split.
    + rewrite Q. apply drain_on_absent. exact Hnot.
    + rewrite F, drain_others by exact Hnot. apply Hpr.
Qed.

Lemma unregistered_untouched_witness :
  filter (on_proc 5) (calls (cleanup Samples.busy)) = [] /\
  procs (final (cleanup Samples.busy)) 5 = procs Samples.busy 5.
Proof.
  apply unregistered_untouched. simpl. intuition discriminate.
Defined.

(** ** The turn of one subprocess within a run *)

Lemma filter_sub {A} (f g : A -> bool) (l : list A) :
  (forall x, f x = true -> g x = true) ->
  filter f (filter g l) = filter f l.
Proof.
  intros H. induction l as [|x l IH]; simpl; [reflexivity|].
  destruct (g x) eqn:Eg; simpl.
  - rewrite IH. reflexivity.
  - destruct (f x) eqn:Ef; [|exact IH].
    rewrite (H x Ef) in Eg. discriminate.
Qed.

(** A member of the registry is either still registered when the drain
    ends, or has had its turn: the drain then made its calls on it during
    that turn only, and it is left as the turn left it. *)
Lemma drain_split (pending : list proc_id) : forall s h,
  NoDup pending -> In h pending ->
  In h (running_subprocesses (final (drain pending s))) \/
  exists s_h pre post,
    procs s_h h = procs s h /\
    calls (drain pending s) = pre ++ calls (drain_turn h s_h) ++ post /\
    filter (on_proc h) pre = [] /\ filter (on_proc h) post = [] /\
    procs (final (drain pending s)) h = procs (final (drain_turn h s_h)) h.
Proof.
  induction pending as [|h' rest IH]; intros s h Hnd Hin; [destruct Hin|].
  apply NoDup_cons_iff in Hnd as [Hnot Hnd'].
  rewrite drain_cons, final_bind, calls_bind.
  set (s0 := set_running_subprocesses rest s).
  destruct (Nat.eq_dec h h') as [->|Hne].
  - right. exists s0, [].
    exists (match outcome (drain_turn h' s0) with
            | Returned _ => calls (drain rest (final (drain_turn h' s0)))
            | _ => []
            end).
    repeat apply conj; try reflexivity.
    + destruct (outcome (drain_turn h' s0)); try reflexivity.
      apply drain_on_absent. exact Hnot.
    + destruct (outcome (drain_turn h' s0)); try reflexivity.
      apply drain_others. exact Hnot.
  - assert (Hrest : In h rest) by (destruct Hin as [E|H]; [congruence | exact H]).
    pose proof (drain_turn_registry h' s0) as Hkeep. unfold same_registry in Hkeep.
    change (running_subprocesses s0) with rest in Hkeep.
    pose proof (@drain_turn_others h' s0 h Hne) as K.
    destruct (outcome (drain_turn h' s0)) as [[]|e|].
    + destruct (IH (final (drain_turn h' s0)) h Hnd' Hrest)
        as [Hleft|(s_h & pre & post & Hp & Hc & Npre & Npost & Hf)].
      * left. exact Hleft.
      * right. exists s_h, (calls (drain_turn h' s0) ++ pre), post.
        repeat apply conj.
        -- rewrite Hp. exact K.
        -- rewrite Hc, <- app_assoc. reflexivity.
        -- rewrite filter_app, Npre, app_nil_r.
           apply (drain_turn_on_other s0 Hne).
        -- exact Npost.
        -- exact Hf.
    + left. rewrite Hkeep. exact Hrest.
    + left. rewrite Hkeep. exact Hrest.
Qed.

(** The same within a run of [cleanup]. *)
Lemma cleanup_turn (s : state) (h : proc_id) :
  NoDup (running_subprocesses s) ->
  In h (running_subprocesses s) ->
  (In h (running_subprocesses (final (cleanup s))) /\
   filter (on_proc h) (calls (cleanup s)) = []) \/
  exists s_h,
    procs s_h h = procs s h /\
    filter (on_proc h) (calls (cleanup s)) =
      filter (on_proc h) (calls (drain_turn h s_h)) /\
    procs (final (cleanup s)) h = procs (final (drain_turn h s_h)) h.
Proof.
  intros Hnd Hin.
  destruct (cleanup_core s) as (s1 & Hreg & Hpr & [[F Q]|(F & _ & _ & Q)]).
  - left. rewrite F, Hreg. split; [exact Hin | apply Q].
  - destruct (@drain_split (running_subprocesses s) s1 h Hnd Hin)
      as [Hleft|(s_h & pre & post & Hp & Hc & Npre & Npost & Hf)].
    + left. rewrite F. split; [exact Hleft|].
      destruct (drain_leaves s1 Hreg) as (popped & _ & _ & Hun).
      rewrite Q. apply (Hun Hnd h Hleft).
    + right. exists s_h. repeat apply conj.
      * rewrite Hp. apply Hpr.
      * rewrite Q, Hc, !filter_app, Npre, Npost, app_nil_r. reflexivity.
      * rewrite F. exact Hf.
Qed.

Lemma unregistered_calls (s : state) (h : proc_id) :
  ~ In h (running_subprocesses s) ->
  filter (on_proc h) (calls (cleanup s)) = [] /\
  procs (final (cleanup s)) h = procs s h.
Proof.
  intros Hnot.
  destruct (cleanup_core s) as (s1 & Hreg & Hpr & [[F Q]|(F & _ & _ & Q)]).
  - split; [apply Q|]. rewrite F. apply Hpr.
  - split.
    + rewrite Q. apply drain_on_absent. exact Hnot.
    + rewrite F, drain_others by exact Hnot. apply Hpr.
Qed.

Lemma drain_reaches (h : proc_id) (after : list proc_id) :
  forall before s,
    NoDup (before ++ h :: after) ->
    (forall h', In h' before -> obedient (procs s h')) ->
    ~ In h (running_subprocesses (final (drain (before ++ h :: after) s))).
Proof.
  induction before as [|b before IH]; intros s Hnd Hob.
  - simpl app in *. apply NoDup_cons_iff in Hnd as [Hnot Hnd'].
    rewrite drain_cons, final_bind.
    set (s0 := set_running_subprocesses after s).
    pose proof (drain_turn_registry h s0) as Hkeep. unfold same_registry in Hkeep.
    change (running_subprocesses s0) with after in Hkeep.
    destruct (outcome (drain_turn h s0)); [|rewrite Hkeep; exact Hnot..].
    destruct (drain_leaves (final (drain_turn h s0)) Hkeep) as (popped & Hp & _).
    intros Hin. apply Hnot. rewrite Hp. apply in_or_app. right. exact Hin.
  - simpl app in *. apply NoDup_cons_iff in Hnd as [Hnot Hnd'].
    rewrite drain_cons, final_bind.
    set (s0 := set_running_subprocesses (before ++ h :: after) s).
    destruct (drain_turn_run b s0 (Hob b (or_introl eq_refl))) as [O _].
    rewrite O. apply IH; [exact Hnd'|].
    intros h' Hin.
    assert (Hne : h' <> b).
    { intros ->. apply Hnot. apply in_or_app. left. exact Hin. }
    rewrite (@drain_turn_others b s0 h' Hne). apply Hob. right. exact Hin.
Qed.

(** In a run of [cleanup], the drain removes from the registry every
    handle it gets to. *)
Lemma cleanup_reaches (s : state) (h : proc_id) :
  NoDup (running_subprocesses s) ->
  reached s h ->
  ~ In h (running_subprocesses (final (cleanup s))).
Proof.
  intros Hnd (Hpool & before & after & Hreg & Hob).
  assert (P : outcome (prelude s) = Returned tt).
  { unfold prelude, console_print, bind, emit.
    destruct (thread_executor s) as [ex|] eqn:Hex.
    - rewrite (pool_shutdown_present s Hex), (Hpool ex eq_refl). reflexivity.
    - rewrite (pool_shutdown_absent s Hex). reflexivity. }
  pose proof (prelude_registry s) as Hr. pose proof (prelude_processes s) as Hp.
  unfold same_registry, same_processes in Hr, Hp.
  rewrite cleanup_phases, final_bind, P.
  set (s0 := final (prelude s)) in *.
  set (rest := fun _ : unit => bind join_part (fun _ => finish)).
  assert (Hrest : forall s', final (rest tt s') = s').
  { intros s'. unfold rest. rewrite final_bind, join_part_pure.
    destruct (outcome (join_part s')); try reflexivity. apply finish_pure. }
  rewrite (final_bind terminate_subprocesses rest s0).
  assert (E : running_subprocesses
                match outcome (terminate_subprocesses s0) with
                | Returned a => final (rest a (final (terminate_subprocesses s0)))
                | _ => final (terminate_subprocesses s0)
                end =
              running_subprocesses (final (terminate_subprocesses s0))).
  { destruct (outcome (terminate_subprocesses s0)) as [[]|e|]; try reflexivity.
    rewrite Hrest. reflexivity. }
  rewrite E. unfold terminate_subprocesses. rewrite bind_gets, Hr, Hreg.
  apply drain_reaches.
  - rewrite <- Hreg. exact Hnd.
  - intros h' Hin. rewrite Hp. apply Hob, Hin.
Qed.

Lemma stop_process_returns (h : proc_id) (s : state) :
  stop_returns (procs s h) -> outcome (stop_process h s) = Returned tt.
Proof.
  unfold stop_returns. intros Hsig.
  rewrite stop_process_outcome. cbv zeta.
  destruct (returncode (procs s h)); [reflexivity|].
  destruct (Hsig eq_refl) as [Ht Hw]. rewrite Ht.
  destruct (wait_for (procs s h) 3) as [c|e]; [reflexivity|].
  destruct Hw as [Hto Hk]. rewrite Hto, Hk. reflexivity.
Qed.

(** ** C6: every present stream is closed once *)

Lemma stop_process_no_close h :
  emits (fun e => is_close e = false) (stop_process h).
Proof. unfold stop_process. event_class; reflexivity. Qed.

Lemma close_loop_calls (h : proc_id) (p : process) (fs : list std_stream) :
  NoDup fs ->
  forall s,
    (forall f, In f fs -> get_stream (procs s h) f = get_stream p f) ->
    calls (for_each fs (fun f =>
             match get_stream p f with
             | Some _ => try_except (stream_close h f) isinstance_Exception (ret tt)
             | None => ret tt
             end) s) = closing h p fs.
Proof.
  induction fs as [|f rest IH]; intros Hnd s Hsame; [reflexivity|].
  apply NoDup_cons_iff in Hnd as [Hnot Hnd'].
  simpl for_each. rewrite calls_bind. simpl closing.
  fold (close_slot h (get_stream p f) f).
  pose proof (close_slot_run h f s) as R.
  rewrite (Hsame f (or_introl eq_refl)) in R. rewrite R. clear R.
  destruct (get_stream p f) as [st|] eqn:E.
  - rewrite outcome_run, final_run, calls_run. unfold swallowed. simpl. f_equal.
    destruct (close_raises st) as [e|] eqn:Ec.
    + destruct (isinstance_Exception e); [|reflexivity].
      apply IH; [exact Hnd'|]. intros g Hg. apply Hsame. right. exact Hg.
    + apply IH; [exact Hnd'|]. intros g Hg.
      rewrite <- (Hsame g (or_intror Hg)). simpl. rewrite Nat.eqb_refl.
      assert (Hne : g <> f) by (intros ->; contradiction).
      destruct f, g; try reflexivity; congruence.
  - rewrite outcome_run, final_run, calls_run. simpl.
    apply IH; [exact Hnd'|]. intros g Hg. apply Hsame. right. exact Hg.
Qed.

Lemma close_streams_script (h : proc_id) (s : state) :
  calls (close_streams h s) = closing h (procs s h) [Stdout; Stderr; Stdin].
Proof.
  unfold close_streams. rewrite bind_gets.
  apply close_loop_calls; [|reflexivity].
  repeat constructor; simpl; intuition discriminate.
Qed.

Lemma closing_count (h : proc_id) (p : process) (f : std_stream) :
  length (filter (closes h f) (closing h p [Stdout; Stderr; Stdin])) <=
    (if present p f then 1 else 0) /\
  ((forall g st, In g (slots_before f) -> get_stream p g = Some st ->
                 swallowed st = true) ->
   length (filter (closes h f) (closing h p [Stdout; Stderr; Stdin])) =
     if present p f then 1 else 0).
Proof.
  unfold present. simpl.
  destruct (stdout p) as [o|] eqn:Eo; destruct (stderr p) as [e|] eqn:Ee;
    destruct (stdin p) as [i|] eqn:Ei;
    try destruct (swallowed o) eqn:So; try destruct (swallowed e) eqn:Se;
    try destruct (swallowed i) eqn:Si;
    destruct f; simpl; rewrite ?Eo, ?Ee, ?Ei, ?Nat.eqb_refl; simpl;
    (split; [lia|]); intros Hb; try reflexivity;
    exfalso;
    match goal with
    | So : swallowed ?o = false, Eo : stdout p = Some ?o |- _ =>
        assert (swallowed o = true) by (apply (Hb Stdout o); simpl; auto);
        congruence
    | Se : swallowed ?e = false, Ee : stderr p = Some ?e |- _ =>
        assert (swallowed e = true) by (apply (Hb Stderr e); simpl; auto);
        congruence
    end.
Qed.

Lemma closing_ext (h : proc_id) (p p' : process) (fs : list std_stream) :
  (forall f, get_stream p' f = get_stream p f) ->
  closing h p' fs = closing h p fs.
Proof.
  intros H. induction fs as [|f rest IH]; simpl; [reflexivity|].
  rewrite H, IH. reflexivity.
Qed.

Lemma closes_on_proc (h : proc_id) (f : std_stream) (e : event) :
  closes h f e = true -> on_proc h e = true.
Proof.
  destruct e; simpl; try discriminate.
  intros H. apply andb_true_iff in H. apply H.
Qed.

Lemma drain_turn_closes (h : proc_id) (s : state) (f : std_stream) :
  filter (closes h f) (calls (drain_turn h s)) =
  match outcome (stop_process h s) with
  | Returned _ => filter (closes h f) (closing h (procs s h) [Stdout; Stderr; Stdin])
  | _ => []
  end.
Proof.
  unfold drain_turn. rewrite calls_bind, filter_app.
  assert (N : filter (closes h f) (calls (stop_process h s)) = []).
  { apply filter_none. eapply Forall_impl; [|apply stop_process_no_close].
    intros e He. destruct e; simpl in *; try reflexivity. discriminate. }
  rewrite N, app_nil_l.
  destruct (outcome (stop_process h s)); try reflexivity.
  rewrite close_streams_script. f_equal.
  apply closing_ext. intros g. apply stop_process_streams.
Qed.

(** C6, as stated, fails twice over: when [terminate()] raises, no stream of
    the popped process is closed; and a [close()] that raises outside
    [Exception] leaves the protocol and skips the remaining streams. *)
Lemma streams_closed_once_counterexample :
  (present (Samples.reaped 7) Stdout = true /\
   filter (closes 0 Stdout)
     (calls (cleanup (Samples.tracking (Samples.reaped 7)))) = []) /\
  (present (Samples.interrupted 8) Stderr = true /\
   filter (closes 0 Stderr)
     (calls (cleanup (Samples.tracking (Samples.interrupted 8)))) = [] /\
   outcome (cleanup (Samples.tracking (Samples.interrupted 8))) =
     Raised Samples.KeyboardInterrupt).
Proof. repeat split. Qed.

(** C6 (amended). In a run of [cleanup()], whatever its outcome, [close()]
    is never called twice on the same stream of a tracked subprocess, and
    never on a slot that is empty.  For a subprocess the drain has popped
    and on which the terminate/wait/kill step returns, whichever way the
    process exited, [close()] is called exactly once on each of stdout,
    stderr and stdin that is present, provided no [close()] on a stream
    before it in that order raised outside [Exception].  A [close()] that
    raises an instance of [Exception] stops nothing: when no [close()]
    raises anything else, the loop over the streams returns.  The drain
    pops every subprocess it gets to, that is, when the pool shutdown and
    the calls on the subprocesses before it have returned. *)
Theorem streams_closed_once (s : state) (h : proc_id) (f : std_stream) :
  NoDup (running_subprocesses s) ->
  length (filter (closes h f) (calls (cleanup s))) <=
    (if present (procs s h) f then 1 else 0) /\
  (In h (running_subprocesses s) ->
   ~ In h (running_subprocesses (final (cleanup s))) ->
   stop_returns (procs s h) ->
   (forall g st, In g (slots_before f) -> get_stream (procs s h) g = Some st ->
                 swallowed st = true) ->
   length (filter (closes h f) (calls (cleanup s))) =
     if present (procs s h) f then 1 else 0) /\
  (forall s',
     (forall g st, get_stream (procs s' h) g = Some st -> swallowed st = true) ->
     outcome (close_streams h s') = Returned tt) /\
  (reached s h -> ~ In h (running_subprocesses (final (cleanup s)))).
Proof.
  intros Hnd.
  assert (E : filter (closes h f) (calls (cleanup s)) =
              filter (closes h f) (filter (on_proc h) (calls (cleanup s)))).
  { symmetry. apply filter_sub. apply closes_on_proc. }
  split; [|split; [|split; [|apply cleanup_reaches; exact Hnd]]].
  - destruct (in_dec Nat.eq_dec h (running_subprocesses s)) as [Hin|Hnot].
    + destruct (@cleanup_turn s h Hnd Hin) as [[_ Q]|(s_h & Hp & Q & _)].
      * rewrite E, Q. simpl. lia.
      * rewrite E, Q, filter_sub by apply closes_on_proc.
        rewrite drain_turn_closes.
        destruct (outcome (stop_process h s_h)); simpl; try lia.
        rewrite Hp. apply closing_count.
    + destruct (@unregistered_calls s h Hnot) as [Q _].
      rewrite E, Q. simpl. lia.
  - intros Hin Hpop Hstop Hbefore.
    destruct (@cleanup_turn s h Hnd Hin) as [[Hleft _]|(s_h & Hp & Q & _)];
      [contradiction|].
    rewrite E, Q, filter_sub by apply closes_on_proc.
    rewrite drain_turn_closes, stop_process_returns by (rewrite Hp; exact Hstop).
    rewrite Hp. apply closing_count. exact Hbefore.
  - intros s' Hsw. apply (close_streams_run h s' Hsw).
Qed.

Lemma streams_closed_once_witness :
  close_raises Samples.reader = Some Samples.AttributeError /\
  get_stream (Samples.piped 9) Stdout = Some Samples.reader /\
  length (filter (closes 0 Stderr)
            (calls (cleanup (Samples.tracking (Samples.piped 9))))) = 1.
Proof.
  split; [reflexivity|]. split; [reflexivity|].
  assert (Hnd : NoDup (running_subprocesses (Samples.tracking (Samples.piped 9)))).
  { repeat constructor. simpl. intuition. }
  destruct (streams_closed_once (Samples.tracking (Samples.piped 9)) 0 Stderr Hnd)
    as (_ & H & _ & _).
  apply H.
  - left. reflexivity.
  - simpl. intuition.
  - intros _. split; [reflexivity | exact I].
  - intros g st [<-|[]] Est. simpl in Est. injection Est as <-. reflexivity.
Defined.

(** ** C5: the state a drained subprocess is left in *)





(** ** Runs with nothing to stop, second runs, and a failing pool *)

Lemma stops_excluded (e : event) :
  from_join e = true \/ from_finish e = true \/ is_banner e = true ->
  stops e = false.
Proof.
  unfold stops, from_join, from_finish.
  destruct e as [[]| | | | | | | | | | | | |]; simpl; intuition congruence.
Qed.

Lemma cleanup_nothing_registered (s : state) :
  thread_executor s = None ->
  running_subprocesses s = [] ->
  cleanup s =
  (outcome ((join_part ;; finish) s), final ((join_part ;; finish) s),
   Print CleaningUp :: calls ((join_part ;; finish) s)).
Proof.
  intros Hex Hreg.
  assert (P : prelude s = (Returned tt, s, [Print CleaningUp])).
  { unfold prelude, console_print, bind, emit.
    rewrite (pool_shutdown_absent s Hex). reflexivity. }
  assert (T : terminate_subprocesses s = (Returned tt, s, [])).
  { unfold terminate_subprocesses. rewrite bind_gets, Hreg. reflexivity. }
  rewrite cleanup_phases.
  unfold bind at 1. rewrite P.
  unfold bind at 1. rewrite T.
  unfold outcome, final, calls.
  destruct ((join_part;; finish) s) as [[r s2] t2]. reflexivity.
Qed.

Lemma nothing_registered (s : state) :
  thread_executor s = None ->
  running_subprocesses s = [] ->
  final (cleanup s) = s /\
  filter stops (calls (cleanup s)) = [].
Proof.
  intros Hex Hreg. rewrite (cleanup_nothing_registered s Hex Hreg).
  unfold final at 1, calls at 1. simpl.
  split.
  - rewrite final_bind, join_part_pure.
    destruct (outcome (join_part s)); try reflexivity. apply finish_pure.
  - rewrite calls_bind, filter_app.
    assert (J : filter stops (calls (join_part s)) = []).
    { eapply filter_excluded; [|apply join_part_calls].
      intros e He. apply stops_excluded. auto. }
    rewrite J. simpl.
    destruct (outcome (join_part s)); try reflexivity.
    eapply filter_excluded; [|apply finish_calls].
    intros e He. apply stops_excluded. auto.
Qed.

Lemma returned_globals (s : state) :
  outcome (cleanup s) = Returned tt ->
  thread_executor (final (cleanup s)) = None /\
  running_subprocesses (final (cleanup s)) = [].
Proof.
  intros H.
  destruct (cleanup_returned s H)
    as (s1 & s2 & results & H1 & H2 & _ & _ & _ & F & _).
  rewrite F.
  assert (O2 : outcome (terminate_subprocesses s1) = Returned tt)
    by (rewrite H2; reflexivity).
  pose proof (terminate_subprocesses_empties s1 O2) as E.
  rewrite H2 in E. split; [|exact E].
  assert (E2 : thread_executor s2 = thread_executor s1).
  { pose proof (drain_executor (running_subprocesses s1) s1) as K.
    unfold terminate_subprocesses in H2. rewrite bind_gets in H2.
    unfold same_executor in K. rewrite H2 in K. exact K. }
  rewrite E2.
  destruct (thread_executor s) as [ex|] eqn:Hex.
  - rewrite (pool_shutdown_present s Hex) in H1.
    injection H1 as Hr Hs. rewrite Hr in Hs. subst s1. reflexivity.
  - rewrite (pool_shutdown_absent s Hex) in H1.
    injection H1 as Hs. subst s1. exact Hex.
Qed.

(** X2. After a run of [cleanup()] that returned, a second run finds no
    pool handle and an empty registry: it makes no call of the pool stage
    or of the drain (no [shutdown], and no [terminate()], wait, [kill()] or
    [close()] through a subprocess handle) and leaves the state exactly as
    the first run left it.  Its task stage and its sweep run again. *)
Theorem second_cleanup_is_quiet (s : state) :
  outcome (cleanup s) = Returned tt ->
  thread_executor (final (cleanup s)) = None /\
  running_subprocesses (final (cleanup s)) = [] /\
  final (cleanup (final (cleanup s))) = final (cleanup s) /\
  filter stops (calls (cleanup (final (cleanup s)))) = [].
Proof.
  intros H. destruct (returned_globals s H) as [Hex Hreg].
  split; [exact Hex|]. split; [exact Hreg|].
  apply nothing_registered; assumption.
Qed.

Lemma second_cleanup_is_quiet_witness :
  filter stops (calls (cleanup Samples.busy)) <> [] /\
  filter stops (calls (cleanup (final (cleanup Samples.busy)))) = [].
Proof.
  split; [discriminate|].
  apply (second_cleanup_is_quiet Samples.busy eq_refl).
Defined.

(** X6. With no pool handle and an empty registry, [cleanup()] shuts
    nothing down, signals, awaits and closes nothing, and leaves the state
    as it found it, whatever the tasks and the sweep do. *)
Theorem nothing_to_stop (s : state) :
  thread_executor s = None ->
  running_subprocesses s = [] ->
  final (cleanup s) = s /\
  filter stops (calls (cleanup s)) = [] /\
  calls (cleanup s) = Print CleaningUp :: calls ((join_part ;; finish) s).
Proof.
  intros Hex Hreg.
  destruct (nothing_registered s Hex Hreg) as [F Q].
  split; [exact F|]. split; [exact Q|].
  rewrite (cleanup_nothing_registered s Hex Hreg). reflexivity.
Qed.

Lemma nothing_to_stop_witness :
  final (cleanup Samples.lingering) = Samples.lingering /\
  filter stops (calls (cleanup Samples.lingering)) = [].
Proof.
  destruct (nothing_to_stop Samples.lingering eq_refl eq_refl) as (F & Q & _).
  split; assumption.
Defined.

(** X5. When the pool shutdown does not return, [cleanup()] ends there:
    the handle is still set, the registry and every subprocess are as they
    were, and no task has been cancelled. *)
Theorem pool_failure_stops_cleanup (s : state) (ex : executor) :
  thread_executor s = Some ex ->
  shutdown ex true <> Returned tt ->
  cleanup s =
  (match shutdown ex true with Raised e => Raised e | _ => Blocked end, s,
   [Print CleaningUp; Print ShuttingDownPool; Shutdown true]).
Proof.
  intros Hex Hsh. rewrite cleanup_phases.
  assert (P : prelude s =
              (match shutdown ex true with Raised e => Raised e | _ => Blocked end,
               s, [Print CleaningUp; Print ShuttingDownPool; Shutdown true])).
  { unfold prelude, console_print, bind, emit.
    rewrite (pool_shutdown_present s Hex).
    destruct (shutdown ex true) as [[]|e|]; [congruence|reflexivity|reflexivity]. }
  unfold bind at 1. rewrite P.
  destruct (shutdown ex true) as [[]|e|]; [congruence|reflexivity|reflexivity].
Qed.

Lemma pool_failure_stops_cleanup_witness :
  cleanup (Samples.pooled Samples.broken_pool) =
  (Raised Samples.RuntimeError, Samples.pooled Samples.broken_pool,
   [Print CleaningUp; Print ShuttingDownPool; Shutdown true]).
Proof.
  apply (pool_failure_stops_cleanup (Samples.pooled Samples.broken_pool)
           (ex := Samples.broken_pool)).
  - reflexivity.
  - discriminate.
Defined.

(** ** The sweep, whatever its outcome *)

Lemma follows_ret {A} (a : A) (s : state) : follows (ret a) s [].
Proof. exists []. split; reflexivity. Qed.

Lemma follows_run_then {A B} (m : M A) (k : A -> M B) (s : state)
    (a : A) (t : trace) (full : trace) :
  m s = (Returned a, s, t) ->
  follows (k a) s full ->
  follows (bind m k) s (t ++ full).
Proof.
  intros Hm (rest & Hfull & Hret).
  exists rest. rewrite calls_bind, outcome_bind, Hm.
  unfold outcome at 1 2, final, calls at 1. simpl.
  split; [rewrite Hfull, app_assoc; reflexivity | exact Hret].
Qed.

Lemma follows_emit_then {B} (e : event) (k : M B) (s : state) (full : trace) :
  follows k s full -> follows (emit e ;; k) s (e :: full).
Proof.
  intros H.
  exact (@follows_run_then _ _ (emit e) (fun _ => k) s tt [e] full eq_refl H).
Qed.

Lemma follows_gets_then {A B} (f : state -> A) (k : A -> M B) (s : state)
    (full : trace) :
  follows (k (f s)) s full -> follows (bind (gets f) k) s full.
Proof.
  intros H.
  exact (@follows_run_then _ _ (gets f) k s (f s) [] full eq_refl H).
Qed.

Lemma follows_ret_then {A B} (a : A) (k : A -> M B) (s : state) (full : trace) :
  follows (k a) s full -> follows (bind (ret a) k) s full.
Proof.
  intros H.
  exact (@follows_run_then _ _ (ret a) k s a [] full eq_refl H).
Qed.

Lemma follows_assoc {A B C} (m : M A) (k : A -> M B) (k' : B -> M C)
    (s : state) (full : trace) :
  follows (bind m (fun a => bind (k a) k')) s full ->
  follows (bind (bind m k) k') s full.
Proof. unfold follows. rewrite bind_assoc. trivial. Qed.

Lemma follows_bind_pure {A B} (m : M A) (k : A -> M B) (s : state)
    (first second : trace) :
  final (m s) = s ->
  follows m s first ->
  (forall a, follows (k a) s second) ->
  follows (bind m k) s (first ++ second).
Proof.
  intros Hpure (rest & Hfirst & Hret) Hk.
  unfold follows. rewrite calls_bind, outcome_bind, Hpure.
  destruct (outcome (m s)) as [a|e|] eqn:O.
  - destruct (Hk a) as (rest' & Hsecond & Hret').
    exists rest'. rewrite Hfirst, (Hret a eq_refl), app_nil_r, Hsecond, app_assoc.
    split; [reflexivity | exact Hret'].
  - exists (rest ++ second). rewrite Hfirst, app_nil_r, app_assoc.
    split; [reflexivity | discriminate].
  - exists (rest ++ second). rewrite Hfirst, app_nil_r, app_assoc.
    split; [reflexivity | discriminate].
Qed.

Lemma follows_for_each {A} (xs : list A) (body : A -> M unit)
    (script : A -> trace) (s : state) :
  (forall x, final (body x s) = s /\ follows (body x) s (script x)) ->
  final (for_each xs body s) = s /\
  follows (for_each xs body) s (flat_map script xs).
Proof.
  intros Hb. induction xs as [|x xs [IHf IHs]]; simpl.
  - split; [reflexivity | apply follows_ret].
  - destruct (Hb x) as [Hf Hs]. split.
    + rewrite final_bind, Hf. destruct (outcome (body x s)); auto.
    + apply follows_bind_pure; auto.
Qed.

Lemma ps_terminate_follows (c : ps_process) (s : state) :
  final ((console_print (TerminatingProcess (ps_pid c)) ;; ps_terminate c) s) = s /\
  follows (console_print (TerminatingProcess (ps_pid c)) ;; ps_terminate c) s
          (terminate_script c).
Proof.
  unfold follows, ps_terminate, terminate_script. run_calls.
  destruct (ps_terminate_raises c); simpl;
    (split; [reflexivity|]); exists []; split; auto; discriminate.
Qed.

Lemma ps_kill_follows (c : ps_process) (s : state) :
  final ((console_print (ForceKillingProcess (ps_pid c)) ;; ps_kill c) s) = s /\
  follows (console_print (ForceKillingProcess (ps_pid c)) ;; ps_kill c) s
          (kill_script c).
Proof.
  unfold follows, ps_kill, kill_script. run_calls.
  destruct (ps_kill_raises c); simpl;
    (split; [reflexivity|]); exists []; split; auto; discriminate.
Qed.

Lemma del_loop_run (ths : list thread) (s : state) :
  for_each ths (fun t => if negb (is_alive t) then ret tt else ret tt) s =
  (Returned tt, s, []).
Proof.
  induction ths as [|t ths IH]; simpl; [reflexivity|].
  unfold bind. destruct (negb (is_alive t)); simpl; rewrite IH; reflexivity.
Qed.

Lemma kill_all_threads_follows (s : state) :
  follows kill_all_threads s (sweep_script s).
Proof.
  unfold kill_all_threads, sweep_script.
  unfold console_print at 1, psutil_children, psutil_wait_procs, threading_enumerate.
  apply follows_emit_then.
  apply follows_assoc, follows_emit_then, follows_gets_then.
  destruct (@follows_for_each _ (ps_children s true)
              (fun child => console_print (TerminatingProcess (ps_pid child)) ;;
                            ps_terminate child)
              terminate_script s (fun c => ps_terminate_follows c s)) as [F1 S1].
  apply follows_bind_pure; [exact F1 | exact S1 |]. intros _.
  apply follows_assoc, follows_emit_then, follows_ret_then.
  destruct (@follows_for_each _ (still_alive s)
              (fun child => console_print (ForceKillingProcess (ps_pid child)) ;;
                            ps_kill child)
              kill_script s (fun c => ps_kill_follows c s)) as [F2 S2].
  apply follows_bind_pure; [exact F2 | exact S2 |]. intros _.
  apply follows_assoc, follows_emit_then, follows_gets_then.
  apply (@follows_run_then _ _ _ _ s tt [] _ (del_loop_run (threads s) s)).
  apply follows_assoc, follows_emit_then, follows_gets_then.
  unfold console_print at 1. apply follows_emit_then.
  apply (@follows_run_then _ _ _ _ s tt _ _ (for_each_emit (threads s) thread_line s)).
  exists []. split; reflexivity.
Qed.

(** X10. Whatever fails, the calls [kill_all_threads] has made are an
    initial segment of its full script: terminate every descendant in the
    order of the enumeration, wait once, kill the survivors in the order in
    which [wait_procs] lists them, report the threads.  So no [kill()]
    comes before the wait, no wait before a [terminate()] on every
    descendant, and the script is complete when the function returns; the
    program state is never changed. *)
Theorem sweep_is_prefix (s : state) :
  final (kill_all_threads s) = s /\
  exists rest,
    sweep_script s = calls (kill_all_threads s) ++ rest /\
    (outcome (kill_all_threads s) = Returned tt -> rest = []).
Proof.
  split; [apply kill_all_threads_pure|].
  destruct (kill_all_threads_follows s) as (rest & H1 & H2).
  exists rest. split; [exact H1 | apply H2].
Qed.

Lemma thread_lines_report (ts : list thread) :
  filter is_thread_report (map thread_line ts) = map thread_line ts.
Proof. induction ts as [|t ts IH]; simpl; [reflexivity|]. rewrite IH. reflexivity. Qed.

Lemma scripts_no_report (cs : list ps_process) :
  filter is_thread_report (flat_map terminate_script cs) = [] /\
  filter is_thread_report (flat_map kill_script cs) = [].
Proof. induction cs as [|c cs [IH1 IH2]]; simpl; auto. Qed.

(** X7. When [kill_all_threads] returns, the thread report gives the count
    of the enumerated threads followed by one line for each of them, in
    order and whatever [is_alive()] says: the loop that deletes references
    to finished threads removes nothing from the report. *)
Theorem thread_report (s : state) :
  outcome (kill_all_threads s) = Returned tt ->
  filter is_thread_report (calls (kill_all_threads s)) =
    Print (RemainingThreads (length (threads s))) :: map thread_line (threads s).
Proof.
  intros H.
  destruct (kill_all_threads_follows s) as (rest & H1 & H2).
  rewrite (H2 tt H), app_nil_r in H1. rewrite <- H1.
  unfold sweep_script. simpl.
  rewrite filter_app, (proj1 (scripts_no_report _)). simpl.
  rewrite filter_app, (proj2 (scripts_no_report _)). simpl.
  rewrite filter_app, thread_lines_report. simpl. rewrite app_nil_r. reflexivity.
Qed.

Lemma thread_report_witness :
  filter is_thread_report (calls (kill_all_threads Samples.lingering)) =
    [Print (RemainingThreads 2); Print (ThreadLine "MainThread" true);
     Print (ThreadLine "Thread-1" false)].
Proof. apply (thread_report Samples.lingering). reflexivity. Defined.

(** ** What a subprocess object keeps through a run *)

Lemma evolves_refl (p : process) : evolves p p.
Proof.
  split; [reflexivity|]. split; [auto|]. split.
  - exists []. rewrite app_nil_r. reflexivity.
  - intros f. destruct (get_stream p f) as [st|]; eauto.
Qed.

Lemma evolves_trans (p1 p2 p3 : process) :
  evolves p1 p2 -> evolves p2 p3 -> evolves p1 p3.
Proof.
  intros (Hp & Hr & (t1 & Hs) & Hf) (Hp' & Hr' & (t2 & Hs') & Hf').
  split; [|split; [|split]].
  - congruence.
  - intros c Hc. apply Hr', Hr, Hc.
  - exists (t1 ++ t2). rewrite Hs', Hs, app_assoc. reflexivity.
  - intros f. specialize (Hf f). specialize (Hf' f).
    destruct (get_stream p1 f) as [st|].
    + destruct Hf as (st' & E & Hc). rewrite E in Hf'.
      destruct Hf' as (st'' & E' & Hc'). exists st''. split; auto.
    + rewrite Hf in Hf'. exact Hf'.
Qed.

#[export] Instance all_evolve_frame : Frame all_evolve.
Proof.
  split; unfold all_evolve.
  - intros s h. apply evolves_refl.
  - intros s1 s2 s3 H1 H2 h. eapply evolves_trans; [apply H1 | apply H2].
Qed.

#[export] Instance only_streams_frame : Frame only_streams.
Proof.
  split; unfold only_streams.
  - intros s h. auto.
  - intros s1 s2 s3 H1 H2 h.
    destruct (H1 h) as (A1 & B1 & C1). destruct (H2 h) as (A2 & B2 & C2).
    repeat split; congruence.
Qed.

Lemma evolves_deliver (p : process) (sg : signal) : evolves p (deliver p sg).
Proof.
  split; [reflexivity|]. split; [auto|]. split.
  - exists [sg]. reflexivity.
  - intros f. unfold get_stream.
    destruct f; simpl;
      match goal with |- match ?x with _ => _ end => destruct x end; eauto.
Qed.

Lemma evolves_exit (p : process) (c : Z) :
  returncode p = None -> evolves p (set_returncode p (Some c)).
Proof.
  intros Hrc. split; [reflexivity|]. split; [|split].
  - intros c' Hc'. congruence.
  - exists []. simpl. rewrite app_nil_r. reflexivity.
  - intros f. unfold get_stream.
    destruct f; simpl;
      match goal with |- match ?x with _ => _ end => destruct x end; eauto.
Qed.

Lemma evolves_close (p : process) (f : std_stream) (st st' : stream) :
  get_stream p f = Some st ->
  closed st' = true ->
  evolves p (set_stream p f (Some st')).
Proof.
  intros E Hc. split; [reflexivity|]. split; [auto|]. split.
  - exists []. simpl. rewrite app_nil_r. reflexivity.
  - intros g. unfold get_stream in *.
    destruct f, g; simpl in *; rewrite ?E; eauto;
      match goal with |- match ?x with _ => _ end => destruct x end; eauto.
Qed.

Lemma stop_process_evolves h : keeps all_evolve (stop_process h).
Proof.
  intros s h'. destruct (Nat.eq_dec h' h) as [->|Hne].
  - rewrite stop_process_effect. cbv zeta.
    destruct (returncode (procs s h)) eqn:Hrc; [apply evolves_refl|].
    destruct (terminate_raises (procs s h)); [apply evolves_refl|].
    destruct (wait_for (procs s h) 3) as [c|e].
    + eapply evolves_trans; [apply (evolves_deliver _ SIGTERM)|].
      apply evolves_exit. exact Hrc.
    + destruct (isinstance_TimeoutError e); [|apply evolves_deliver].
      destruct (kill_raises (procs s h)); [apply evolves_deliver|].
      eapply evolves_trans; apply evolves_deliver.
  - rewrite (@stop_process_others h s h' Hne). apply evolves_refl.
Qed.

Lemma stream_close_evolves h f : keeps all_evolve (stream_close h f).
Proof.
  intros s h'. unfold stream_close. run_calls.
  destruct (get_stream (procs s h) f) as [st|] eqn:E; simpl;
    [|apply evolves_refl].
  destruct (close_raises st); simpl; [apply evolves_refl|].
  destruct (Nat.eqb h' h) eqn:Hh; [|apply evolves_refl].
  apply Nat.eqb_eq in Hh. subst h'.
  eapply evolves_close; [exact E | reflexivity].
Qed.

Lemma stream_close_only_streams h f : keeps only_streams (stream_close h f).
Proof.
  intros s h'. unfold stream_close. run_calls.
  destruct (get_stream (procs s h) f) as [st|] eqn:E; simpl; auto.
  destruct (close_raises st); simpl; auto.
  destruct (Nat.eqb h' h) eqn:Hh; auto.
  apply Nat.eqb_eq in Hh. subst h'. destruct f; auto.
Qed.

Lemma close_streams_evolves h : keeps all_evolve (close_streams h).
Proof.
  unfold close_streams. apply keeps_bind; [apply keeps_gets|]. intros p.
  apply keeps_for_each. intros f.
  destruct (get_stream p f); [|apply keeps_ret].
  apply keeps_try_except; [apply stream_close_evolves | apply keeps_ret].
Qed.

Lemma close_streams_only_streams h : keeps only_streams (close_streams h).
Proof.
  unfold close_streams. apply keeps_bind; [apply keeps_gets|]. intros p.
  apply keeps_for_each. intros f.
  destruct (get_stream p f); [|apply keeps_ret].
  apply keeps_try_except; [apply stream_close_only_streams | apply keeps_ret].
Qed.

Lemma drain_evolves pending : keeps all_evolve (drain pending).
Proof.
  induction pending as [|h rest IH]; simpl.
  - apply keeps_ret.
  - apply keeps_bind.
    + apply keeps_modify. intros s h'. apply evolves_refl.
    + intros _. apply keeps_bind; [apply stop_process_evolves|]. intros _.
      apply keeps_bind; [apply close_streams_evolves|]. intros _. exact IH.
Qed.

Lemma pure_evolves {A} (m : M A) : keeps same_state m -> keeps all_evolve m.
Proof. intros H s h. rewrite (H s). apply evolves_refl. Qed.

(** X8. Through a run of [cleanup()], whatever its outcome, every
    subprocess object keeps its pid and its stream slots, an exit status
    that was known stays the same, delivered signals are only added to, and
    a stream that was closed stays closed. *)
Theorem subprocess_state_only_advances (s : state) (h : proc_id) :
  evolves (procs s h) (procs (final (cleanup s)) h).
Proof.
  revert s h. change (keeps all_evolve cleanup). unfold cleanup.
  apply keeps_bind; [unfold console_print; apply keeps_emit|]. intros _.
  apply keeps_bind.
  { intros s h. rewrite (pool_shutdown_processes s h). apply evolves_refl. }
  intros _. apply keeps_bind.
  { unfold terminate_subprocesses. apply keeps_bind; [apply keeps_gets|].
    intros pending. apply drain_evolves. }
  intros _. apply keeps_bind; [unfold asyncio_sleep; apply keeps_emit|]. intros _.
  apply keeps_bind; [apply pure_evolves, cancel_tasks_pure|]. intros results.
  apply keeps_bind; [apply pure_evolves, triage_pure|]. intros _.
  apply keeps_bind; [apply pure_evolves, kill_all_threads_pure|]. intros _.
  unfold console_print. apply keeps_emit.
Qed.

(** ** The signals one run sends through a handle *)

Lemma drain_turn_signals (h : proc_id) (s : state) :
  exists tail,
    signals (procs (final (drain_turn h s)) h) = signals (procs s h) ++ tail /\
    signal_tail tail /\
    (returncode (procs s h) <> None -> tail = []).
Proof.
  assert (E : signals (procs (final (drain_turn h s)) h) =
              signals (procs (final (stop_process h s)) h)).
  { unfold drain_turn. rewrite final_bind.
    destruct (outcome (stop_process h s)); try reflexivity.
    apply (close_streams_only_streams h (final (stop_process h s)) h). }
  rewrite E, stop_process_effect. cbv zeta. unfold signal_tail.
  destruct (returncode (procs s h)) eqn:Hrc.
  { exists []. rewrite app_nil_r. auto. }
  destruct (terminate_raises (procs s h)).
  { exists []. rewrite app_nil_r. auto. }
  destruct (wait_for (procs s h) 3) as [c|e].
  { exists [SIGTERM]. simpl. repeat split; auto. congruence. }
  destruct (isinstance_TimeoutError e).
  - destruct (kill_raises (procs s h)).
    + exists [SIGTERM]. simpl. repeat split; auto. congruence.
    + exists [SIGTERM; SIGKILL]. simpl. rewrite <- app_assoc.
      repeat split; auto. congruence.
  - exists [SIGTERM]. simpl. repeat split; auto. congruence.
Qed.

Lemma drain_signals (pending : list proc_id) : forall s,
  NoDup pending ->
  forall h, exists tail,
    signals (procs (final (drain pending s)) h) = signals (procs s h) ++ tail /\
    signal_tail tail /\
    (returncode (procs s h) <> None -> tail = []).
Proof.
  induction pending as [|h' rest IH]; intros s Hnd h.
  - exists []. simpl. rewrite app_nil_r. unfold signal_tail. auto.
  - apply NoDup_cons_iff in Hnd as [Hnot Hnd'].
    rewrite drain_cons, final_bind.
    set (s0 := set_running_subprocesses rest s).
    change (procs s h) with (procs s0 h).
    destruct (Nat.eq_dec h h') as [->|Hne].
    + destruct (outcome (drain_turn h' s0)) as [[]|e|];
        try apply drain_turn_signals.
      rewrite drain_others by exact Hnot. apply drain_turn_signals.
    + pose proof (@drain_turn_others h' s0 h Hne) as K.
      destruct (outcome (drain_turn h' s0)) as [[]|e|].
      * rewrite <- K. apply IH. exact Hnd'.
      * rewrite K. exists []. rewrite app_nil_r. unfold signal_tail. auto.
      * rewrite K. exists []. rewrite app_nil_r. unfold signal_tail. auto.
Qed.

(** X9. Through the handle of a subprocess, one run of [cleanup()],
    whatever its outcome, sends nothing, or SIGTERM, or SIGTERM followed by
    SIGKILL: never a SIGKILL that was not preceded by SIGTERM, never the
    same signal twice, and nothing at all when the exit status was already
    known.  (What the sweep sends through psutil is not counted here.) *)
Theorem signals_of_a_run (s : state) (h : proc_id) :
  NoDup (running_subprocesses s) ->
  exists tail,
    signals (procs (final (cleanup s)) h) = signals (procs s h) ++ tail /\
    signal_tail tail /\
    (returncode (procs s h) <> None -> tail = []).
Proof.
  intros Hnd.
  destruct (cleanup_core s) as (s1 & Hreg & Hpr & [[F _]|(F & _)]).
  - exists []. rewrite F, Hpr, app_nil_r. unfold signal_tail. auto.
  - rewrite F, <- Hpr. apply drain_signals. exact Hnd.
Qed.

Lemma signals_of_a_run_witness :
  signals (procs (final (cleanup Samples.failing)) 0) = [SIGTERM] /\
  signals (procs (final (cleanup Samples.failing)) 1) = [] /\
  exists tail,
    signals (procs (final (cleanup Samples.busy)) 1) =
      signals (procs Samples.busy 1) ++ tail /\ signal_tail tail.
Proof.
  split; [reflexivity|]. split; [reflexivity|].
  assert (Hnd : NoDup (running_subprocesses Samples.busy)).
  { repeat constructor; simpl; intuition discriminate. }
  destruct (signals_of_a_run Samples.busy 1 Hnd) as (tail & H1 & H2 & _).
  exists tail. split; assumption.
Defined.

(** ** Waits and kills, whatever the outcome *)

Lemma not_from_drain (e : event) :
  from_prelude e = true \/ from_join e = true \/ from_finish e = true ->
  from_drain e = false.
Proof.
  unfold from_prelude, from_join, from_finish.
  destruct e as [[]| | | | | | | | | | | | |]; simpl; intuition congruence.
Qed.

(** The calls of a run that only the drain can make are those of its drain,
    when it has one. *)
Lemma cleanup_drain_calls (f : event -> bool) (s : state) :
  (forall e, from_drain e = false -> f e = false) ->
  exists s1,
    running_subprocesses s1 = running_subprocesses s /\
    (forall h, procs s1 h = procs s h) /\
    (filter f (calls (cleanup s)) = [] \/
     filter f (calls (cleanup s)) =
     filter f (calls (drain (running_subprocesses s) s1))).
Proof.
  intros Hf.
  exists (final (prelude s)).
  pose proof (prelude_registry s) as Hreg.
  pose proof (prelude_processes s) as Hpr.
  unfold same_registry, same_processes in Hreg, Hpr.
  split; [exact Hreg|]. split; [exact Hpr|].
  set (s1 := final (prelude s)) in *.
  assert (Hts : terminate_subprocesses s1 = drain (running_subprocesses s) s1).
  { unfold terminate_subprocesses. rewrite bind_gets, Hreg. reflexivity. }
  assert (Q0 : filter f (calls (prelude s)) = []).
  { eapply filter_excluded; [|apply prelude_calls].
    intros e He. apply Hf, not_from_drain. auto. }
  assert (Q2 : forall s', filter f (calls (join_part s')) = []).
  { intros s'. eapply filter_excluded; [|apply join_part_calls].
    intros e He. apply Hf, not_from_drain. auto. }
  assert (Q3 : forall s', filter f (calls (finish s')) = []).
  { intros s'. eapply filter_excluded; [|apply finish_calls].
    intros e He. apply Hf, not_from_drain. auto. }
  rewrite cleanup_phases, calls_bind, filter_app, Q0. simpl. fold s1.
  destruct (outcome (prelude s)); [|left; reflexivity|left; reflexivity].
  right. rewrite calls_bind, filter_app, Hts.
  destruct (outcome (drain (running_subprocesses s) s1));
    rewrite ?app_nil_r; try reflexivity.
  rewrite calls_bind, filter_app, Q2. simpl.
  destruct (outcome (join_part (final (drain (running_subprocesses s) s1))));
    rewrite ?Q3, ?app_nil_r; reflexivity.
Qed.

Lemma close_streams_no_wait h :
  emits (fun e => is_wait e = false /\ is_kill e = false) (close_streams h).
Proof. unfold close_streams. event_class; split; reflexivity. Qed.

Lemma drain_turn_waits (h : proc_id) (s : state) :
  length (filter is_wait (calls (drain_turn h s))) <=
  (if running s h then 1 else 0).
Proof.
  unfold drain_turn. rewrite calls_bind, filter_app, length_app.
  assert (C : filter is_wait
                match outcome (stop_process h s) with
                | Returned _ => calls (close_streams h (final (stop_process h s)))
                | _ => []
                end = []).
  { destruct (outcome (stop_process h s)); try reflexivity.
    apply filter_none. eapply Forall_impl; [|apply close_streams_no_wait].
    intros e [He _]. exact He. }
  rewrite C, stop_process_script. cbv zeta. unfold running. simpl.
  destruct (returncode (procs s h)); simpl; [lia|].
  destruct (terminate_raises (procs s h)); simpl; [lia|].
  destruct (timed_out (procs s h)); simpl; lia.
Qed.

Lemma running_ext (s s' : state) (hs : list proc_id) :
  (forall h, In h hs -> procs s' h = procs s h) ->
  filter (running s') hs = filter (running s) hs.
Proof.
  intros H. apply filter_ext_in. intros h Hin. unfold running.
  rewrite (H h Hin). reflexivity.
Qed.

Lemma drain_waits (pending : list proc_id) : forall s,
  NoDup pending ->
  length (filter is_wait (calls (drain pending s))) <=
  length (filter (running s) pending).
Proof.
  induction pending as [|h rest IH]; intros s Hnd; [simpl; lia|].
  apply NoDup_cons_iff in Hnd as [Hnot Hnd'].
  rewrite drain_cons, calls_bind, filter_app, length_app.
  set (s0 := set_running_subprocesses rest s).
  pose proof (drain_turn_waits h s0) as Hturn.
  change (running s0 h) with (running s h) in Hturn.
  assert (Hrest : length (filter is_wait
                    match outcome (drain_turn h s0) with
                    | Returned _ => calls (drain rest (final (drain_turn h s0)))
                    | _ => []
                    end) <= length (filter (running s) rest)).
  { destruct (outcome (drain_turn h s0)); simpl; try lia.
    rewrite <- (running_ext s (final (drain_turn h s0)) rest).
    - apply IH. exact Hnd'.
    - intros h' Hin. apply (@drain_turn_others h s0 h').
      intros ->. contradiction. }
  simpl. destruct (running s h); simpl; lia.
Qed.

(** X11. In any run of [cleanup()], whatever its outcome, the number of
    waits for a subprocess to exit is at most the number of registered
    subprocesses with no exit status, and each of them carries the timeout
    3: the drain never waits twice for the same subprocess. *)
Theorem waits_are_bounded (s : state) :
  NoDup (running_subprocesses s) ->
  length (filter is_wait (calls (cleanup s))) <=
    length (filter (running s) (running_subprocesses s)) /\
  Forall (fun e => match e with WaitFor _ t => t = 3%Q | _ => True end)
         (calls (cleanup s)).
Proof.
  intros Hnd. split.
  - destruct (cleanup_drain_calls is_wait s) as (s1 & Hreg & Hpr & [Q|Q]).
    + intros e. destruct e as [[]| | | | | | | | | | | | |]; simpl; congruence.
    + rewrite Q. simpl. lia.
    + rewrite Q, <- (running_ext s s1 (running_subprocesses s)).
      * apply drain_waits. exact Hnd.
      * intros h _. apply Hpr.
  - eapply Forall_impl; [|apply cleanup_bounded].
    intros e. destruct e; simpl; auto.
Qed.

Lemma waits_are_bounded_witness :
  length (filter (running Samples.failing) (running_subprocesses Samples.failing)) = 3 /\
  length (filter is_wait (calls (cleanup Samples.failing))) <= 3.
Proof.
  split; [reflexivity|].
  assert (Hnd : NoDup (running_subprocesses Samples.failing)).
  { repeat constructor; simpl; intuition discriminate. }
  apply (proj1 (waits_are_bounded Samples.failing Hnd)).
Defined.

Lemma close_streams_no_signal h :
  emits (fun e => is_signal_call e = false) (close_streams h).
Proof. unfold close_streams. event_class; reflexivity. Qed.

Lemma drain_turn_entitled (h : proc_id) (s : state) (e : event) :
  In e (calls (drain_turn h s)) ->
  match e with
  | Terminate h' => h' = h /\ returncode (procs s h) = None
  | Kill h' =>
      h' = h /\ returncode (procs s h) = None /\
      terminate_raises (procs s h) = None /\ timed_out (procs s h) = true
  | _ => True
  end.
Proof.
  unfold drain_turn. rewrite calls_bind, in_app_iff. intros [Hin|Hin].
  - rewrite stop_process_script in Hin. cbv zeta in Hin.
    destruct (returncode (procs s h)); [destruct Hin|].
    destruct (terminate_raises (procs s h)).
    + destruct Hin as [<-|[<-|[]]]; auto.
    + destruct (timed_out (procs s h)).
      * destruct Hin as [<-|[<-|[<-|[<-|[<-|[]]]]]]; auto.
      * destruct Hin as [<-|[<-|[<-|[]]]]; auto.
  - assert (Hs : is_signal_call e = false).
    { destruct (outcome (stop_process h s)); try (destruct Hin; fail).
      pose proof (close_streams_no_signal h (final (stop_process h s))) as F.
      rewrite Forall_forall in F. apply F, Hin. }
    destruct e; simpl in Hs; try discriminate; exact I.
Qed.

Lemma drain_entitled (pending : list proc_id) : forall s e,
  NoDup pending ->
  In e (calls (drain pending s)) ->
  match e with
  | Terminate h => In h pending /\ returncode (procs s h) = None
  | Kill h =>
      In h pending /\ returncode (procs s h) = None /\
      terminate_raises (procs s h) = None /\ timed_out (procs s h) = true
  | _ => True
  end.
Proof.
  induction pending as [|h' rest IH]; intros s e Hnd Hin; [destruct Hin|].
  apply NoDup_cons_iff in Hnd as [Hnot Hnd'].
  rewrite drain_cons, calls_bind, in_app_iff in Hin.
  set (s0 := set_running_subprocesses rest s) in *.
  destruct Hin as [Hin|Hin].
  - apply drain_turn_entitled in Hin.
    change (procs s0 h') with (procs s h') in Hin.
    destruct e; trivial.
    + destruct Hin as [-> Hrc]. split; [left; reflexivity | exact Hrc].
    + destruct Hin as (-> & Hrc). split; [left; reflexivity | exact Hrc].
  - destruct (outcome (drain_turn h' s0)); try (destruct Hin; fail).
    apply (IH _ e Hnd') in Hin.
    assert (K : forall h, In h rest ->
                procs (final (drain_turn h' s0)) h = procs s h).
    { intros h Hh. apply (@drain_turn_others h' s0 h). intros ->. contradiction. }
    destruct e; trivial.
    + destruct Hin as [Hh Hrc]. rewrite (K _ Hh) in Hrc.
      split; [right; exact Hh | exact Hrc].
    + destruct Hin as (Hh & Hrc). rewrite (K _ Hh) in Hrc.
      split; [right; exact Hh | exact Hrc].
Qed.

Lemma not_from_sweep (e : event) :
  from_prelude e = true \/ from_drain e = true \/ from_join e = true ->
  from_sweep e = false.
Proof.
  unfold from_prelude, from_join.
  destruct e as [[]| | | | | | | | | | | | |]; simpl; intuition congruence.
Qed.

Lemma join_part_surroundings : keeps same_surroundings join_part.
Proof. intros s. rewrite (join_part_pure s). apply R_refl. Qed.

(** The calls of a run that only the sweep can make are those of its
    sweep, when it has one; the sweep starts with the tasks, OS processes
    and threads [cleanup] was called with. *)
Lemma cleanup_sweep_calls (f : event -> bool) (s : state) :
  (forall e, from_sweep e = false -> f e = false) ->
  filter f (calls (cleanup s)) = [] \/
  exists s3,
    same_surroundings s s3 /\
    filter f (calls (cleanup s)) = filter f (calls (kill_all_threads s3)).
Proof.
  intros Hf.
  assert (Q0 : forall s', filter f (calls (prelude s')) = []).
  { intros s'. eapply filter_excluded; [|apply prelude_calls].
    intros e He. apply Hf, not_from_sweep. auto. }
  assert (Q1 : forall s', filter f (calls (terminate_subprocesses s')) = []).
  { intros s'. eapply filter_excluded; [|apply terminate_subprocesses_calls].
    intros e He. apply Hf, not_from_sweep. auto. }
  assert (Q2 : forall s', filter f (calls (join_part s')) = []).
  { intros s'. eapply filter_excluded; [|apply join_part_calls].
    intros e He. apply Hf, not_from_sweep. auto. }
  rewrite cleanup_phases, calls_bind, filter_app, Q0. simpl.
  destruct (outcome (prelude s)); [|left; reflexivity|left; reflexivity].
  rewrite calls_bind, filter_app, Q1. simpl.
  set (s1 := final (prelude s)).
  destruct (outcome (terminate_subprocesses s1)); [|left; reflexivity|left; reflexivity].
  rewrite calls_bind, filter_app, Q2. simpl.
  set (s2 := final (terminate_subprocesses s1)).
  destruct (outcome (join_part s2)); [|left; reflexivity|left; reflexivity].
  right. exists (final (join_part s2)). split.
  - eapply R_trans; [|apply join_part_surroundings].
    eapply R_trans; [|unfold s2, terminate_subprocesses; rewrite bind_gets;
                      apply drain_surroundings].
    unfold s1, prelude. rewrite final_bind. simpl.
    apply pool_shutdown_surroundings.
  - unfold finish. rewrite calls_bind, filter_app.
    destruct (outcome (kill_all_threads (final (join_part s2))));
      rewrite ?app_nil_r; try reflexivity.
    simpl. rewrite (Hf (Print CleanupCompleted) eq_refl). apply app_nil_r.
Qed.

Lemma sweep_script_signals (s : state) (e : event) :
  In e (sweep_script s) -> is_ps_signal e = true -> entitled s e.
Proof.
  unfold sweep_script. intros Hin Hsig.
  destruct Hin as [<-|[<-|Hin]]; try discriminate.
  apply in_app_or in Hin as [Hin|[<-|Hin]]; try discriminate.
  - apply in_flat_map in Hin as (c & Hc & [<-|[<-|[]]]); try discriminate.
    simpl. exists c. auto.
  - apply in_app_or in Hin as [Hin|Hin].
    + apply in_flat_map in Hin as (c & Hc & [<-|[<-|[]]]); try discriminate.
      simpl. exists c. destruct (still_alive_spec s) as (Hal & _).
      destruct (Hal c Hc). auto.
    + destruct Hin as [<-|[<-|[<-|Hin]]]; try discriminate.
      apply in_app_or in Hin as [Hin|[<-|[]]]; try discriminate.
      apply in_map_iff in Hin as (t & <- & _). discriminate.
Qed.

(** X12. Whatever the outcome of the run, [cleanup()] calls [terminate()]
    on a subprocess handle only if it is registered and has no exit
    status, and [kill()] on one only if, besides, it accepted [terminate()]
    and did not exit within the timeout; the sweep calls [terminate()] only
    on an OS descendant psutil has enumerated, and [kill()] only on one of
    these that was still alive when the window closed.  A run makes no
    other terminate or kill call. *)
Theorem signal_calls_are_entitled (s : state) (e : event) :
  NoDup (running_subprocesses s) ->
  In e (calls (cleanup s)) ->
  entitled s e.
Proof.
  intros Hnd Hin.
  destruct (is_signal_call e) eqn:Hsig.
  - assert (Hf : In e (filter is_signal_call (calls (cleanup s))))
      by (apply filter_In; auto).
    destruct (cleanup_drain_calls is_signal_call s) as (s1 & Hreg & Hpr & [Q|Q]).
    + intros x. destruct x as [[]| | | | | | | | | | | | |]; simpl; congruence.
    + rewrite Q in Hf. destruct Hf.
    + rewrite Q in Hf. apply filter_In in Hf as [Hd _].
      apply (@drain_entitled _ s1 e Hnd) in Hd.
      destruct e; simpl in Hsig; try discriminate; simpl.
      * rewrite <- Hpr. exact Hd.
      * rewrite <- Hpr. exact Hd.
  - destruct (is_ps_signal e) eqn:Hps;
      [|destruct e; simpl in Hsig, Hps; try discriminate; exact I].
    assert (Hf : In e (filter is_ps_signal (calls (cleanup s))))
      by (apply filter_In; auto).
    destruct (cleanup_sweep_calls is_ps_signal s) as [Q|(s3 & Hsur & Q)].
    + intros x. destruct x as [[]| | | | | | | | | | | | |]; simpl; congruence.
    + rewrite Q in Hf. destruct Hf.
    + rewrite Q in Hf. apply filter_In in Hf as [Hd _].
      destruct (kill_all_threads_follows s3) as (rest & Hfull & _).
      assert (Hs : In e (sweep_script s3)).
      { rewrite Hfull. apply in_or_app. left. exact Hd. }
      apply (@sweep_script_signals s3 e Hs) in Hps.
      destruct Hsur as (_ & _ & _ & Hch & _).
      destruct e; simpl in Hsig; try discriminate; try exact I;
        simpl in Hps |- *; rewrite <- Hch; exact Hps.
Qed.

Lemma signal_calls_are_entitled_witness :
  In (Kill 1) (calls (cleanup Samples.busy)) /\
  entitled Samples.busy (Kill 1) /\
  In (PsKill 200) (calls (cleanup Samples.busy)) /\
  entitled Samples.busy (PsKill 200) /\
  ~ In (Kill 0) (calls (cleanup Samples.busy)) /\
  ~ In (PsKill 100) (calls (cleanup Samples.busy)).
Proof.
  assert (Hnd : NoDup (running_subprocesses Samples.busy)).
  { repeat constructor; simpl; intuition discriminate. }
  assert (Hin : In (Kill 1) (calls (cleanup Samples.busy))).
  { simpl. do 13 right. left. reflexivity. }
  assert (Hin' : In (PsKill 200) (calls (cleanup Samples.busy))).
  { apply (proj1 (filter_In is_ps_signal _ _)).
    simpl. right. right. left. reflexivity. }
  split; [exact Hin|]. split.
  - apply signal_calls_are_entitled; [exact Hnd | exact Hin].
  - split; [exact Hin'|]. split.
    + apply signal_calls_are_entitled; [exact Hnd | exact Hin'].
    + split; simpl; intuition discriminate.
Defined.
